(** * QuTiP: super-operator representations and tensor composition

    A shallow embedding of [qutip/superop_reps.py] and [qutip/tensor.py].

    Python values are modelled by the type [pyval] (a [Qobj], a list of
    values, [None]); a call either returns a value or raises an exception
    ([result]).  The collaborators the two files import but do not define
    (the [Qobj] class, [spre], [spost], [reshuffle], [scipy.sparse.kron],
    ...) are the fields of the class [Externals]. *)

From Stdlib Require Import String Bool Arith ZArith Reals Lia List.
From Stdlib Require Import Permutation.
Import ListNotations.
Open Scope string_scope.
Open Scope list_scope.
Open Scope nat_scope.

Set Implicit Arguments.
Set Warnings "-register-all".

(** ** Exceptions and results *)

Module Py.

(** The exception classes the two files can raise, and [ArgumentError],
    the second error kind of the specification. *)
Inductive exn_class : Type :=
| TypeError
| AttributeError
| IndexError
| ValueError
| RecursionError
| ArgumentError.

Inductive result (A : Type) : Type :=
| Ok (a : A)
| Raise (c : exn_class) (msg : string).

Arguments Ok {A} a.
Arguments Raise {A} c msg.

Definition bind {A B} (r : result A) (k : A -> result B) : result B :=
  match r with
  | Ok a => k a
  | Raise c m => Raise c m
  end.

Definition fmap {A B} (f : A -> B) (r : result A) : result B :=
  bind r (fun a => Ok (f a)).

(** [list(map(f, xs))]: the calls are made left to right, the first
    exception escapes. *)
Fixpoint mapM {A B} (f : A -> result B) (xs : list A) : result (list B) :=
  match xs with
  | [] => Ok []
  | x :: r =>
      bind (f x) (fun y => bind (mapM f r) (fun ys => Ok (y :: ys)))
  end.

(** [all(f(x) for x in xs)] over a generator: stops at the first false. *)
Fixpoint all_gen {A} (f : A -> result bool) (xs : list A) : result bool :=
  match xs with
  | [] => Ok true
  | x :: r => bind (f x) (fun b => if b then all_gen f r else Ok false)
  end.

Definition is_raise {A} (r : result A) (c : exn_class) : Prop :=
  exists msg, r = Raise c msg.

(** The interpreter's bound on the depth of nested calls of one function
    ([sys.getrecursionlimit()]). *)
Definition recursion_limit : nat := 1000.

End Py.

Import Py.

Declare Scope py_scope.
Notation "x <- c ;; k" := (bind c (fun x => k))
  (at level 61, c at next level, right associativity) : py_scope.
Open Scope py_scope.

(** ** numpy arrays *)

Module Numpy.

Section Arrays.
Variable T : Type.

(** An array is its shape and its elements in row-major (C) order. *)
Record ndarray : Type := mk_ndarray { shape : list nat; buf : list T }.

Definition size_of (sh : list nat) : nat := fold_right Nat.mul 1 sh.

(** [array([[...], ...])] on a list of rows. *)
Definition array (rows : list (list T)) : ndarray :=
  mk_ndarray [length rows; length (hd [] rows)] (concat rows).

(** [a.reshape(sh)]: the elements are kept in order; numpy refuses a
    shape of another size. *)
Definition reshape (a : ndarray) (sh : list nat) : result ndarray :=
  if size_of sh =? size_of (shape a)
  then Ok (mk_ndarray sh (buf a))
  else Raise ValueError "total size of new array must be unchanged".

(** Multi-index of the flat position [i] in an array of shape [sh]. *)
Fixpoint unravel (sh : list nat) (i : nat) : list nat :=
  match sh with
  | [] => []
  | n :: rest => (i / size_of rest) mod n :: unravel rest i
  end.

(** Flat position of a multi-index. *)
Fixpoint ravel (sh idx : list nat) : nat :=
  match sh, idx with
  | _ :: rest, j :: js => j * size_of rest + ravel rest js
  | _, _ => 0
  end.

(** Position of [m] in [axes]. *)
Fixpoint index_of (m : nat) (axes : list nat) : nat :=
  match axes with
  | [] => 0
  | x :: r => if x =? m then 0 else S (index_of m r)
  end.

(** The elements of [l] at the positions [idx], in that order. *)
Fixpoint gather (idx : list nat) (l : list T) : list T :=
  match idx with
  | [] => []
  | i :: r =>
      match nth_error l i with
      | Some x => x :: gather r l
      | None => gather r l
      end
  end.

(** Position in the source array of the element that [transpose(axes)]
    puts at flat position [i]: axis [k] of the result is axis
    [axes[k]] of the source. *)
Definition source_index (axes sh : list nat) (i : nat) : nat :=
  let new_sh := map (fun ax => nth ax sh 0) axes in
  let idx := unravel new_sh i in
  ravel sh (map (fun m => nth (index_of m axes) idx 0) (seq 0 (length sh))).

(** [a.transpose(axes)]. *)
Definition transpose (axes : list nat) (a : ndarray) : ndarray :=
  let sh := shape a in
  mk_ndarray (map (fun ax => nth ax sh 0) axes)
             (gather (map (source_index axes sh) (seq 0 (size_of sh))) (buf a)).

End Arrays.

Arguments mk_ndarray {T} shape buf.
Arguments shape {T} n.
Arguments buf {T} n.
Arguments array {T} rows.
Arguments reshape {T} a sh.
Arguments gather {T} idx l.
Arguments transpose {T} axes a.

End Numpy.

Import Numpy.

(** ** Quantum objects *)

(** An entry of a [dims] list: an integer, or a nested list (the dims of
    a super-operator are lists of lists). *)
Inductive dimspec : Type :=
| DInt (n : nat)
| DList (l : list dimspec).

(** [dims] is [[dims[0], dims[1]]]. *)
Definition dims_t : Type := (list dimspec * list dimspec)%type.

Section Objects.
Variable T : Type.

(** Modelled from the spec: the class [Qobj] of [qutip.qobj], which is
    not part of these sources.  The record has the five attributes of the
    QuantumObject entity of the data model: [data], [dims], the kind
    ([type], a string such as ['oper'] or ['super']), the representation
    tag ([superrep], [None] when it is not set) and the cached
    tri-state hermiticity flag ([_isherm], [None] for unknown). *)
Record Qobj : Type := mk_Qobj {
  data : ndarray T;
  dims : dims_t;
  type : string;
  superrep : option string;
  _isherm : option bool
}.

(** Attribute assignments. *)
Definition set_data (q : Qobj) (d : ndarray T) : Qobj :=
  mk_Qobj d (dims q) (type q) (superrep q) (_isherm q).
Definition set_dims (q : Qobj) (d : dims_t) : Qobj :=
  mk_Qobj (data q) d (type q) (superrep q) (_isherm q).
Definition set_superrep (q : Qobj) (r : option string) : Qobj :=
  mk_Qobj (data q) (dims q) (type q) r (_isherm q).
Definition set_isherm (q : Qobj) (h : option bool) : Qobj :=
  mk_Qobj (data q) (dims q) (type q) (superrep q) h.

(** Modelled from the spec: the properties [isoper], [issuper], [isket],
    [isbra], [isoperket] and [isoperbra] of [Qobj] test the kind. *)
Definition isoper (q : Qobj) : bool := String.eqb (type q) "oper".
Definition issuper (q : Qobj) : bool := String.eqb (type q) "super".
Definition isket (q : Qobj) : bool := String.eqb (type q) "ket".
Definition isbra (q : Qobj) : bool := String.eqb (type q) "bra".
Definition isoperket (q : Qobj) : bool := String.eqb (type q) "operator-ket".
Definition isoperbra (q : Qobj) : bool := String.eqb (type q) "operator-bra".

(** [q.superrep == s] for a string literal [s]. *)
Definition superrep_is (q : Qobj) (s : string) : bool :=
  match superrep q with
  | Some r => String.eqb r s
  | None => false
  end.

(** [a == b] on two representation tags. *)
Definition superrep_eqb (a b : option string) : bool :=
  match a, b with
  | Some x, Some y => String.eqb x y
  | None, None => true
  | _, _ => false
  end.

(** [str(q.superrep)]. *)
Definition str_superrep (r : option string) : string :=
  match r with
  | Some s => s
  | None => "None"
  end.

(** The Python values the functions receive and return. *)
Inductive pyval : Type :=
| PyNone
| PyQobj (q : Qobj)
| PyList (l : list pyval)
| PyArray (l : list pyval).

(** [isinstance(v, Qobj)]. *)
Definition is_Qobj (v : pyval) : bool :=
  match v with
  | PyQobj _ => true
  | _ => false
  end.

(** The quantum objects of a list of values. *)
Fixpoint qobjs (vs : list pyval) : list Qobj :=
  match vs with
  | [] => []
  | PyQobj q :: r => q :: qobjs r
  | _ :: r => qobjs r
  end.

(** Reading an attribute of [Qobj] on an arbitrary value. *)
Definition getattr {A} (name : string) (f : Qobj -> A) (v : pyval)
  : result A :=
  match v with
  | PyQobj q => Ok (f q)
  | _ => Raise AttributeError name
  end.

(** Calling a function that reads [q_oper.type] first on an arbitrary
    value. *)
Definition call {A} (f : Qobj -> result A) (v : pyval) : result A :=
  match v with
  | PyQobj q => f q
  | _ => Raise AttributeError "type"
  end.

End Objects.

Arguments PyNone {T}.
Arguments mk_Qobj {T} data dims type superrep _isherm.

(** The collaborators [superop_reps.py] and [tensor.py] import: the
    constructor and methods of [Qobj], [qutip.superoperator],
    [qutip.permute], [qutip.states], [scipy.sparse.kron] and
    [qutip.settings].  The laws say what the constructor stores, that the
    kind it gives is the one [classify] reads off the dims and the shape,
    that the clean-up pass [tidyup] touches neither the dims nor the
    hermiticity flag, and that the property [isherm] gives back a flag
    that is cached.  The getter of [isherm] decides a flag that is unknown
    from the object itself; it also stores its answer in the cache of the
    object it is read on, which changes no later reading. *)
Class Externals (T : Type) : Type := {
  Qobj_init : ndarray T -> option dims_t -> option string -> option string
              -> Qobj T;
  Qobj_empty : Qobj T;
  classify : dims_t -> list nat -> string;
  isherm : Qobj T -> bool;
  dag : Qobj T -> Qobj T;
  qmul : Qobj T -> Qobj T -> Qobj T;
  tidyup : Qobj T -> Qobj T;
  spre : Qobj T -> Qobj T;
  spost : Qobj T -> Qobj T;
  operator_to_vector : Qobj T -> Qobj T;
  reshuffle : Qobj T -> Qobj T;
  ket2dm : Qobj T -> Qobj T;
  kron : ndarray T -> ndarray T -> ndarray T;
  auto_tidyup : bool;
  Qobj_init_data : forall a d t s, data (Qobj_init a d t s) = a;
  Qobj_init_dims : forall a d t s, dims (Qobj_init a (Some d) t s) = d;
  Qobj_init_type : forall a d s,
      type (Qobj_init a (Some d) None s) = classify d (shape a);
  tidyup_dims : forall q, dims (tidyup q) = dims q;
  tidyup_isherm : forall q, _isherm (tidyup q) = _isherm q;
  isherm_cached : forall q b, _isherm q = Some b -> isherm q = b
}.

Arguments isherm_cached {T Externals} q b _.

(** The numerical kernels of the Kraus decomposition: [scipy.linalg.eig]
    (eigenvalues, and the matrix of eigenvectors as its list of rows),
    [numpy.sqrt], [vec2mat] and the product of a scalar and a matrix. *)
Class Eigen (T : Type) : Type := {
  eig : ndarray T -> list T * list (list T);
  csqrt : T -> T;
  vec2mat : list T -> ndarray T;
  scale : T -> ndarray T -> ndarray T
}.

(** The float operations of the depolarizing fixtures. *)
Class FloatOps (T : Type) : Type := {
  f0 : T;
  f1 : T;
  f2 : T;
  fsub : T -> T -> T;
  fdiv : T -> T -> T
}.


(** ** superop_reps.py *)

Module SuperopReps.

Section Conversions.
Context {T : Type} {E : Externals T}.

Section Fixtures.
Context {F : FloatOps T}.

Definition _dep_super (pe : T) : Qobj T :=
  Qobj_init
    (array [[fsub f1 (fdiv pe f2); f0; f0; fdiv pe f2];
            [f0; fsub f1 pe; f0; f0];
            [f0; f0; fsub f1 pe; f0];
            [fdiv pe f2; f0; f0; fsub f1 (fdiv pe f2)]])
    (Some ([DInt 2; DInt 2], [DInt 2; DInt 2])) None None.

Definition _dep_choi (pe : T) : Qobj T :=
  Qobj_init
    (array [[fsub f1 (fdiv pe f2); f0; f0; fsub f1 pe];
            [f0; fdiv pe f2; f0; f0];
            [f0; f0; fdiv pe f2; f0];
            [fsub f1 pe; f0; f0; fsub f1 (fdiv pe f2)]])
    (Some ([DInt 2; DInt 2], [DInt 2; DInt 2])) None None.

End Fixtures.

(** [sqrt(data.shape[0])] is a float; as a dimension of [reshape] it is
    cut to an integer. *)
Definition _super_tofrom_choi (q_oper : Qobj T) : result (Qobj T) :=
  let data := data q_oper in
  let sqrt_shape := Nat.sqrt (hd 0 (shape data)) in
  t4 <- reshape data [sqrt_shape; sqrt_shape; sqrt_shape; sqrt_shape] ;;
  flat <- reshape (transpose [3; 1; 2; 0] t4) (shape data) ;;
  Ok (Qobj_init flat (Some (dims q_oper)) None None).

Definition super_to_choi (q_oper : Qobj T) : result (Qobj T) :=
  q <- _super_tofrom_choi q_oper ;;
  Ok (set_superrep q (Some "choi")).

Definition choi_to_super (q_oper : Qobj T) : result (Qobj T) :=
  q <- super_to_choi q_oper ;;
  Ok (set_superrep q (Some "super")).

(** [zip] of the unpacked rows: the columns, as many as the shortest row
    has. *)
Definition zip_star (rows : list (list T)) : list (list T) :=
  match rows with
  | [] => []
  | r0 :: rest =>
      let n := fold_right (fun r m => Nat.min (length r) m) (length r0) rest in
      map (fun k => flat_map (fun r => firstn 1 (skipn k r)) rows) (seq 0 n)
  end.

(** One Kraus operator per eigenvalue; no eigenvalue is filtered out. *)
Definition choi_to_kraus {G : Eigen T} (q_oper : Qobj T)
  : result (list (Qobj T)) :=
  let (vals, vecs) := eig (data q_oper) in
  let vecs := zip_star vecs in
  mats <- mapM (fun j =>
                  match nth_error vals j, nth_error vecs j with
                  | Some v, Some c => Ok (scale (csqrt v) (vec2mat c))
                  | _, _ => Raise IndexError "list index out of range"
                  end)
               (seq 0 (length vals)) ;;
  Ok (map (fun x => Qobj_init x None None None) mats).

(** The message of the last branch is built with [format] from
    [{0.type}] and [{0.choi}]; [Qobj] has no attribute [choi], so
    building it raises [AttributeError] before [TypeError] is
    constructed. *)
Definition to_choi (q_oper : Qobj T) : result (Qobj T) :=
  if String.eqb (type q_oper) "super" then
    if superrep_is q_oper "choi" then Ok q_oper
    else if superrep_is q_oper "super" then super_to_choi q_oper
    else Raise TypeError (str_superrep (superrep q_oper))
  else if String.eqb (type q_oper) "oper" then
    super_to_choi (qmul (spre q_oper) (spost (dag q_oper)))
  else Raise AttributeError "'Qobj' object has no attribute 'choi'".

Definition conversion_message (q_oper : Qobj T) (target : string) : string :=
  ("Conversion of Qobj with type = " ++ type q_oper ++
   " and superrep = " ++ str_superrep (superrep q_oper) ++
   " to " ++ target ++ " not supported.")%string.

(** When the kind is ['super'] and the tag is neither ['super'] nor
    ['choi'], no branch returns: the call yields [None]. *)
Definition to_super (q_oper : Qobj T) : result (pyval T) :=
  if String.eqb (type q_oper) "super" then
    if superrep_is q_oper "super" then Ok (PyQobj q_oper)
    else if superrep_is q_oper "choi" then
      fmap (@PyQobj T) (choi_to_super q_oper)
    else Ok PyNone
  else if String.eqb (type q_oper) "oper" then
    Ok (PyQobj (qmul (spre q_oper) (spost (dag q_oper))))
  else Raise TypeError (conversion_message q_oper "supermatrix").

(** [to_kraus] calls itself on [to_choi(q_oper)]; [depth] bounds the
    nesting of the calls. *)
Fixpoint to_kraus_rec {G : Eigen T} (depth : nat) (q_oper : Qobj T)
  : result (pyval T) :=
  match depth with
  | 0 => Raise RecursionError "maximum recursion depth exceeded"
  | S depth' =>
      if String.eqb (type q_oper) "super" then
        if superrep_is q_oper "super" then
          c <- to_choi q_oper ;; to_kraus_rec depth' c
        else if superrep_is q_oper "choi" then
          fmap (fun ks => PyList (map (@PyQobj T) ks)) (choi_to_kraus q_oper)
        else Ok PyNone
      else if String.eqb (type q_oper) "oper" then
        Ok (PyList [PyQobj q_oper])
      else Raise TypeError (conversion_message q_oper "Kraus decomposition")
  end.

Definition to_kraus {G : Eigen T} (q_oper : Qobj T) : result (pyval T) :=
  to_kraus_rec recursion_limit q_oper.

End Conversions.

End SuperopReps.

(** ** tensor.py *)

Module Tensor.

Import SuperopReps.

Section Composition.
Context {T : Type} {E : Externals T}.

(** [a and b] on two booleans: [a] when [a] is false, [b] otherwise. *)
Definition py_and (a b : bool) : bool :=
  if a then b else a.

(** [enumerate(qlist)]. *)
Definition enumerate {A} (l : list A) : list (nat * A) :=
  combine (seq 0 (length l)) l.

(** One turn of the loop of [tensor].  [out.isherm] and [q.isherm] are
    read through the getter of the property; the assignment to
    [out.isherm] stores the value in the cache [_isherm]. *)
Definition tensor_step (out : Qobj T) (nq : nat * Qobj T) : Qobj T :=
  let (n, q) := nq in
  let out :=
    if n =? 0 then set_dims (set_data out (data q)) (dims q)
    else
      let out := set_data out (kron (data out) (data q)) in
      set_dims out (fst (dims out) ++ fst (dims q),
                    snd (dims out) ++ snd (dims q)) in
  set_isherm out (Some (py_and (isherm out) (isherm q))).

(** The body of [tensor] once [qlist] is chosen.  It assigns the tag, the
    flag, the data and the dims of [out], not its kind, which [Qobj]
    derives from the dims when it is read. *)
Definition tensor_qlist (qlist : list (pyval T)) : result (Qobj T) :=
  if negb (forallb (@is_Qobj T) qlist) then
    Raise TypeError "One of inputs is not a quantum object"
  else
    let qs := qobjs qlist in
    let out := Qobj_empty in
    match qs with
    | [] => Raise IndexError "index out of range"
    | q0 :: _ =>
        out <- (if issuper q0 then
                  let out := set_superrep out (superrep q0) in
                  if negb (forallb (fun q => superrep_eqb (superrep q)
                                                          (superrep out)) qs)
                  then Raise TypeError
                         ("In tensor products of superroperators, all must" ++
                          "have the same representation")%string
                  else Ok out
                else Ok out) ;;
        let out := set_isherm out (Some true) in
        let out := fold_left tensor_step (enumerate qs) out in
        let out := if negb (isherm out) then set_isherm out None
                   else out in
        Ok (if auto_tidyup then tidyup out else out)
    end.

Definition tensor (args : list (pyval T)) : result (Qobj T) :=
  match args with
  | [] => Raise TypeError "Requires at least one input argument"
  | [PyList qlist] => tensor_qlist qlist
  | [PyArray qlist] => tensor_qlist qlist
  | [PyQobj q] => Ok q
  | _ => tensor_qlist args
  end.

(** Reshuffle the operands, tensor them, reshuffle the product. *)
Definition shuffled_product (args : list (pyval T)) : result (Qobj T) :=
  let shuffled_ops := map reshuffle (qobjs args) in
  shuffled_tensor <- tensor [PyList (map (@PyQobj T) shuffled_ops)] ;;
  Ok (reshuffle shuffled_tensor).

(** [super_tensor] calls itself on the adjoints of operator-bras;
    [depth] bounds the nesting of the calls. *)
Fixpoint super_tensor_rec (depth : nat) (args : list (pyval T))
  : result (Qobj T) :=
  match depth with
  | 0 => Raise RecursionError "maximum recursion depth exceeded"
  | S depth' =>
      match args with
      | [] => Raise IndexError "tuple index out of range"
      | a0 :: _ =>
          let args := match a0 with PyList l => l | _ => args end in
          all_super <- all_gen (getattr "issuper" (@issuper T)) args ;;
          if all_super then
            if negb (forallb (fun q => superrep_is q "super") (qobjs args))
            then Raise TypeError
                   ("super_tensor on type='super' is only implemented for " ++
                    "superrep='super'.")%string
            else
              out <- shuffled_product args ;;
              match qobjs args with
              | [] => Raise IndexError "index out of range"
              | q0 :: _ => Ok (set_superrep out (superrep q0))
              end
          else
            all_operket <- all_gen (getattr "isoperket" (@isoperket T)) args ;;
            if all_operket then shuffled_product args
            else
              all_operbra <-
                all_gen (getattr "isoperbra" (@isoperbra T)) args ;;
              if all_operbra then
                r <- super_tensor_rec depth'
                       (map (fun q => PyQobj (dag q)) (qobjs args)) ;;
                Ok (dag r)
              else Raise TypeError
                     ("All arguments must be the same type, " ++
                      "either super, operator-ket or operator-bra.")%string
      end
  end.

Definition super_tensor (args : list (pyval T)) : result (Qobj T) :=
  super_tensor_rec recursion_limit args.

Definition _isoperlike (q : Qobj T) : bool := isoper q || issuper q.
Definition _isketlike (q : Qobj T) : bool := isket q || isoperket q.
Definition _isbralike (q : Qobj T) : bool := isbra q || isoperbra q.

(** [composite] calls itself on the adjoints of bra-like operands;
    [depth] bounds the nesting of the calls. *)
Fixpoint composite_rec (depth : nat) (args : list (pyval T))
  : result (Qobj T) :=
  match depth with
  | 0 => Raise RecursionError "maximum recursion depth exceeded"
  | S depth' =>
      if negb (forallb (@is_Qobj T) args) then
        Raise TypeError "All arguments must be Qobjs."
      else
        let qs := qobjs args in
        if forallb _isoperlike qs then
          if existsb (@issuper T) qs then
            promoted <- mapM to_super qs ;;
            super_tensor promoted
          else tensor args
        else if forallb _isketlike qs then
          if existsb (@isoperket T) qs then
            super_tensor
              (map (fun arg => PyQobj (if isoperket arg then arg
                                       else operator_to_vector (ket2dm arg)))
                   qs)
          else tensor args
        else if forallb _isbralike qs then
          r <- composite_rec depth' (map (fun q => PyQobj (dag q)) qs) ;;
          Ok (dag r)
        else Raise TypeError
               ("Unsupported Qobj types [" ++
                String.concat ", " (map (@type T) qs) ++ "].")%string
  end.

Definition composite (args : list (pyval T)) : result (Qobj T) :=
  composite_rec recursion_limit args.

End Composition.

End Tensor.

(** ** A reference environment

    An executable instance of [Externals] over exact scalars, used to run
    the functions on concrete objects. *)

Module Reference.

Class Scalar (T : Type) : Type := {
  s0 : T;
  s1 : T;
  sadd : T -> T -> T;
  smul : T -> T -> T;
  sconj : T -> T
}.

Definition Scalar_Z : Scalar Z :=
  {| s0 := 0%Z; s1 := 1%Z; sadd := Z.add; smul := Z.mul;
     sconj := fun z => z |}.

Definition Scalar_R : Scalar R :=
  {| s0 := 0%R; s1 := 1%R; sadd := Rplus; smul := Rmult;
     sconj := fun x => x |}.

Definition FloatOps_R : FloatOps R :=
  {| f0 := 0%R; f1 := 1%R; f2 := 2%R; fsub := Rminus; fdiv := Rdiv |}.

(** The comparison of two entries, for the test of hermiticity. *)
Class ScalarEq (T : Type) : Type := {
  seqb : T -> T -> bool
}.

Definition ScalarEq_Z : ScalarEq Z := {| seqb := Z.eqb |}.

Definition ScalarEq_R : ScalarEq R :=
  {| seqb := fun x y => if Req_dec_T x y then true else false |}.

Section Ref.
Context {T : Type} {Sc : Scalar T}.

Definition nrows (a : ndarray T) : nat := nth 0 (shape a) 0.
Definition ncols (a : ndarray T) : nat := nth 1 (shape a) 0.

Definition entry (a : ndarray T) (i j : nat) : T :=
  nth (i * ncols a + j) (buf a) s0.

Definition matrix (r c : nat) (f : nat -> nat -> T) : ndarray T :=
  mk_ndarray [r; c] (flat_map (fun i => map (f i) (seq 0 c)) (seq 0 r)).

(** Modelled from the spec: the Kronecker product of
    [scipy.sparse.kron]. *)
Definition ref_kron (a b : ndarray T) : ndarray T :=
  matrix (nrows a * nrows b) (ncols a * ncols b)
         (fun i j => smul (entry a (i / nrows b) (j / ncols b))
                          (entry b (i mod nrows b) (j mod ncols b))).

Definition matmul (a b : ndarray T) : ndarray T :=
  matrix (nrows a) (ncols b)
         (fun i j => fold_right sadd s0
                       (map (fun k => smul (entry a i k) (entry b k j))
                            (seq 0 (ncols a)))).

Definition adjoint (a : ndarray T) : ndarray T :=
  matrix (ncols a) (nrows a) (fun i j => sconj (entry a j i)).

Definition identity (n : nat) : ndarray T :=
  matrix n n (fun i j => if i =? j then s1 else s0).

Definition is_nested (l : list dimspec) : bool :=
  existsb (fun d => match d with DList _ => true | DInt _ => false end) l.

Definition is_scalar (l : list dimspec) : bool :=
  forallb (fun d => match d with DInt 1 => true | _ => false end) l.

(** Modelled from the spec: the kind a [Qobj] gets from its dims; nested
    dims are those of vectorized operators and of super-operators, a
    side of ones is the scalar side of a ket or a bra. *)
Definition ref_classify (d : dims_t) (sh : list nat) : string :=
  let (d0, d1) := d in
  if is_nested d0 && is_nested d1 then "super"
  else if is_nested d0 && is_scalar d1 then "operator-ket"
  else if is_scalar d0 && is_nested d1 then "operator-bra"
  else if is_nested d0 || is_nested d1 then "other"
  else if is_scalar d1 && negb (is_scalar d0) then "ket"
  else if is_scalar d0 && negb (is_scalar d1) then "bra"
  else "oper".

(** Modelled from the spec: construction of a [Qobj] from a matrix and,
    when given, its dims, kind and representation tag. *)
Definition ref_init (inpt : ndarray T) (d : option dims_t)
           (t r : option string) : Qobj T :=
  let d := match d with
           | Some d => d
           | None => ([DInt (nrows inpt)], [DInt (ncols inpt)])
           end in
  let t := match t with
           | Some t => t
           | None => ref_classify d (shape inpt)
           end in
  let r := match r with
           | Some r => Some r
           | None => if String.eqb t "super" then Some "super" else None
           end in
  mk_Qobj inpt d t r None.

Definition ref_empty : Qobj T :=
  ref_init (mk_ndarray [1; 1] [s0]) None None None.

(** Modelled from the spec: the adjoint. *)
Definition ref_dag (q : Qobj T) : Qobj T :=
  let t := type q in
  let t' := if String.eqb t "ket" then "bra"
            else if String.eqb t "bra" then "ket"
            else if String.eqb t "operator-ket" then "operator-bra"
            else if String.eqb t "operator-bra" then "operator-ket"
            else t in
  mk_Qobj (adjoint (data q)) (snd (dims q), fst (dims q)) t'
          (superrep q) (_isherm q).

(** Modelled from the spec: the product of two quantum objects. *)
Definition ref_mul (a b : Qobj T) : Qobj T :=
  ref_init (matmul (data a) (data b)) (Some (fst (dims a), snd (dims b)))
           None (superrep a).

Definition super_dims (q : Qobj T) : dims_t :=
  ([DList (fst (dims q)); DList (snd (dims q))],
   [DList (fst (dims q)); DList (snd (dims q))]).

(** Modelled from the spec: left and right multiplication super-operators
    under column-stacking vectorization. *)
Definition ref_spre (q : Qobj T) : Qobj T :=
  ref_init (ref_kron (identity (ncols (data q))) (data q))
           (Some (super_dims q)) None None.

Definition ref_spost (q : Qobj T) : Qobj T :=
  ref_init (ref_kron (matrix (ncols (data q)) (nrows (data q))
                             (fun i j => entry (data q) j i))
                     (identity (nrows (data q))))
           (Some (super_dims q)) None None.

(** Modelled from the spec: column-stacking vectorization of an
    operator. *)
Definition ref_operator_to_vector (q : Qobj T) : Qobj T :=
  let a := data q in
  ref_init (matrix (nrows a * ncols a) 1
                   (fun i _ => entry a (i mod nrows a) (i / nrows a)))
           (Some ([DList (fst (dims q)); DList (snd (dims q))], [DInt 1]))
           None None.

(** Modelled from the spec: the projector of a ket. *)
Definition ref_ket2dm (q : Qobj T) : Qobj T := ref_mul q (ref_dag q).

Fixpoint sizes (d : dimspec) : list nat :=
  match d with
  | DInt n => [n]
  | DList l => flat_map sizes l
  end.

(** The regrouping of one side of the dims by [reshuffle]: [k] groups of
    [m] factors become [m] groups of [k] factors.  The result is the
    permutation of the factors and the new dims. *)
Definition regroup (l : list dimspec) : list nat * list dimspec :=
  if is_nested l then
    let grid := map sizes l in
    let k := length grid in
    let m := length (hd [] grid) in
    (flat_map (fun j => map (fun i => i * m + j) (seq 0 k)) (seq 0 m),
     map (fun j => DList (map (fun g => DInt (nth j g 1)) grid)) (seq 0 m))
  else (seq 0 (length l), l).

(** Modelled from the spec: the reshuffle permutation of the tensor
    factors of a super-operator or of a vectorized operator. *)
Definition ref_reshuffle (q : Qobj T) : Qobj T :=
  let (d0, d1) := dims q in
  let sz0 := flat_map sizes d0 in
  let sz1 := flat_map sizes d1 in
  let (ax0, nd0) := regroup d0 in
  let (ax1, nd1) := regroup d1 in
  let axes := ax0 ++ map (fun i => length sz0 + i) ax1 in
  match reshape (data q) (sz0 ++ sz1) with
  | Ok t =>
      match reshape (transpose axes t) (shape (data q)) with
      | Ok r => mk_Qobj r (nd0, nd1) (type q) (superrep q) (_isherm q)
      | Raise _ _ => q
      end
  | Raise _ _ => q
  end.

Context {Q : ScalarEq T}.

Fixpoint same_entries (l1 l2 : list T) : bool :=
  match l1, l2 with
  | [], [] => true
  | x :: r1, y :: r2 => seqb x y && same_entries r1 r2
  | _, _ => false
  end.

(** Modelled from the spec: the getter of the property [isherm] returns
    the cached flag when there is one, and otherwise tells whether the
    matrix is square and equal to its adjoint. *)
Definition cached_or (h : option bool) (computed : bool) : bool :=
  match h with
  | Some b => b
  | None => computed
  end.

Definition ref_isherm (q : Qobj T) : bool :=
  cached_or (_isherm q)
            ((nrows (data q) =? ncols (data q))
             && same_entries (buf (data q)) (buf (adjoint (data q)))).

(** Exact scalars leave nothing to tidy up; the policy flag has the
    default of [qutip.settings]. *)
Definition reference : Externals T :=
  {| Qobj_init := ref_init;
     Qobj_empty := ref_empty;
     classify := ref_classify;
     isherm := ref_isherm;
     dag := ref_dag;
     qmul := ref_mul;
     tidyup := fun q => q;
     spre := ref_spre;
     spost := ref_spost;
     operator_to_vector := ref_operator_to_vector;
     reshuffle := ref_reshuffle;
     ket2dm := ref_ket2dm;
     kron := ref_kron;
     auto_tidyup := true;
     Qobj_init_data := fun _ _ _ _ => eq_refl;
     Qobj_init_dims := fun _ _ _ _ => eq_refl;
     Qobj_init_type := fun _ _ _ => eq_refl;
     tidyup_dims := fun _ => eq_refl;
     tidyup_isherm := fun _ => eq_refl;
     isherm_cached := fun q b H =>
       f_equal (fun h =>
                  cached_or h
                    ((nrows (data q) =? ncols (data q))
                     && same_entries (buf (data q))
                                     (buf (adjoint (data q))))) H |}.

End Ref.

(** *** Concrete objects *)

Definition EZ : Externals Z := @reference Z Scalar_Z ScalarEq_Z.
Definition ER : Externals R := @reference R Scalar_R ScalarEq_R.

Definition oper_dims (n : nat) : dims_t := ([DInt n], [DInt n]).
Definition super_dims_of (n : nat) : dims_t :=
  ([DList [DInt n]; DList [DInt n]], [DList [DInt n]; DList [DInt n]]).

(** The Pauli X operator. *)
Definition sigmax : Qobj Z :=
  mk_Qobj (array [[0; 1]; [1; 0]]%Z) (oper_dims 2) "oper" None (Some true).

(** A non-Hermitian qubit operator. *)
Definition sigmam : Qobj Z :=
  mk_Qobj (array [[0; 0]; [1; 0]]%Z) (oper_dims 2) "oper" None (Some false).

(** A qutrit operator. *)
Definition shift3 : Qobj Z :=
  mk_Qobj (array [[0; 1; 0]; [1; 0; 1]; [0; 1; 0]]%Z) (oper_dims 3) "oper"
          None (Some true).

(** The Pauli Z operator, with a flag that is not computed yet. *)
Definition sigmaz : Qobj Z :=
  mk_Qobj (array [[1; 0]; [0; -1]]%Z) (oper_dims 2) "oper" None None.

(** The basis ket of a qubit. *)
Definition ket0 : Qobj Z :=
  mk_Qobj (array [[1]; [0]]%Z) ([DInt 2], [DInt 1]) "ket" None None.

(** The depolarizing matrices scaled by 4 at [pe = 1/2]. *)
Definition super_matrix : ndarray Z :=
  array [[3; 0; 0; 1]; [0; 2; 0; 0]; [0; 0; 2; 0]; [1; 0; 0; 3]]%Z.
Definition choi_matrix : ndarray Z :=
  array [[3; 0; 0; 2]; [0; 1; 0; 0]; [0; 0; 1; 0]; [2; 0; 0; 3]]%Z.

Definition S_super : Qobj Z :=
  mk_Qobj super_matrix (super_dims_of 2) "super" (Some "super") (Some true).
Definition S_choi : Qobj Z :=
  mk_Qobj choi_matrix (super_dims_of 2) "super" (Some "choi") (Some true).
(** A super-operator with a tag the dispatchers do not know. *)
Definition S_chi : Qobj Z :=
  mk_Qobj super_matrix (super_dims_of 2) "super" (Some "chi") (Some true).

End Reference.

(** ** Vocabulary of the statements *)

Import SuperopReps Tensor.

(** The flat position [((e*d + b)*d + c)*d + a] of the element that the
    axis permutation (3,1,2,0) of a [(d,d,d,d)] array puts at position
    [((a*d + b)*d + c)*d + e]. *)
Definition swap03 (d i : nat) : nat :=
  (i mod d) * (d * d * d) + ((i / (d * d)) mod d) * (d * d)
  + ((i / d) mod d) * d + (i / (d * d * d)) mod d.

Definition swap_buf {T} (d : nat) (l : list T) : list T :=
  gather (map (swap03 d) (seq 0 (d * d * d * d))) l.

(** The data of [q] is a [d*d] by [d*d] matrix. *)
Definition square_data {T} (d : nat) (q : Qobj T) : Prop :=
  shape (data q) = [d * d; d * d] /\ length (buf (data q)) = d * d * d * d.

(** The check [tensor] makes on the representation tags: none when the
    first operand is not a super-operator. *)
Definition representation_check {T} (qs : list (Qobj T)) : bool :=
  match qs with
  | [] => true
  | q0 :: _ =>
      negb (issuper q0) ||
      forallb (fun q => superrep_eqb (superrep q) (superrep q0)) qs
  end.

(** The property [isherm] reads true on every operand. *)
Definition all_hermitian {T} {E : Externals T} (qs : list (Qobj T)) : bool :=
  forallb isherm qs.

(** The last line of [tensor]. *)
Definition tidied {T} {E : Externals T} (out : Qobj T) : Qobj T :=
  if auto_tidyup then tidyup out else out.

(** ** superop_reps.py: from Kraus operators *)

Module KrausReps.

Section FromKraus.
Context {T : Type} {E : Externals T} {Sc : Reference.Scalar T}.

(** The matrices are [numpy.matrix] values; the arithmetic of their
    entries (sum, product, and the conjugate taken by [.H]) is that of
    [Sc].  A block is the list of its rows. *)

(** [op[:, c_ix]]: the entries of a column. *)
Definition column (op : ndarray T) (c_ix : nat) : result (list T) :=
  if c_ix <? Reference.ncols op then
    Ok (map (fun i => Reference.entry op i c_ix)
            (seq 0 (Reference.nrows op)))
  else Raise IndexError "index out of bounds".

(** [op.H[r_ix, :]]: a row of the conjugate transpose. *)
Definition row_H (op : ndarray T) (r_ix : nat) : result (list T) :=
  if r_ix <? Reference.ncols op then
    Ok (map (fun i => Reference.sconj (Reference.entry op i r_ix))
            (seq 0 (Reference.nrows op)))
  else Raise IndexError "index out of bounds".

(** The product of a column matrix and a one-row matrix. *)
Definition outer (col row : list T) : list (list T) :=
  map (fun x => map (fun y => Reference.smul x y) row) col.

(** Broadcasting of one axis. *)
Definition broadcast_dim (d1 d2 : nat) : option nat :=
  if d1 =? d2 then Some d1
  else if d1 =? 1 then Some d2
  else if d2 =? 1 then Some d1
  else None.

Definition block_entry (m : list (list T)) (i j : nat) : T :=
  let i := if length m =? 1 then 0 else i in
  let j := if length (hd [] m) =? 1 then 0 else j in
  nth j (nth i m []) Reference.s0.

(** [a + b] on two matrices, with broadcasting. *)
Definition madd (a b : list (list T)) : result (list (list T)) :=
  match broadcast_dim (length a) (length b),
        broadcast_dim (length (hd [] a)) (length (hd [] b)) with
  | Some nr, Some nc =>
      Ok (map (fun i =>
                 map (fun j => Reference.sadd (block_entry a i j)
                                              (block_entry b i j))
                     (seq 0 nc))
              (seq 0 nr))
  | _, _ => Raise ValueError "operands could not be broadcast together"
  end.

(** [sum(blocks)] on a list that is not empty: [0 + b0 + b1 + ...]. *)
Definition sum_blocks (b0 : list (list T)) (rest : list (list (list T)))
  : result (list (list T)) :=
  fold_left (fun acc b => a <- acc ;; madd a b) rest
            (Ok (map (map (Reference.sadd Reference.s0)) b0)).

(** [hstack] of arrays of two or more axes: concatenation along the
    second axis. *)
Definition hstack {X} (arrs : list (list (list X)))
  : result (list (list X)) :=
  match arrs with
  | [] => Raise ValueError "need at least one array to concatenate"
  | a0 :: _ =>
      Ok (map (fun k => flat_map (fun a => nth k a []) arrs)
              (seq 0 (length a0)))
  end.

(** [dims=[kraus_list[0].dims, kraus_list[0].dims]]. *)
Definition choi_dims (d : dims_t) : dims_t :=
  ([DList (fst d); DList (snd d)], [DList (fst d); DList (snd d)]).

Definition kraus_to_choi (kraus_list : list (Qobj T)) : result (Qobj T) :=
  let kraus_mat_list := map (@data T) kraus_list in
  match kraus_list, kraus_mat_list with
  | k0 :: _, m0 :: mats =>
      let op_len := Reference.nrows m0 in
      let op_rng := seq 0 op_len in
      choi_blocks <-
        mapM (fun c_ix =>
                mapM (fun r_ix =>
                        let term op :=
                          col <- column op c_ix ;;
                          row <- row_H op r_ix ;;
                          Ok (outer col row) in
                        b0 <- term m0 ;;
                        rest <- mapM term mats ;;
                        sum_blocks b0 rest)
                     op_rng)
             op_rng ;;
      stacked <- hstack choi_blocks ;;
      flat <- hstack stacked ;;
      Ok (Qobj_init (array flat) (Some (choi_dims (dims k0)))
                    (Some "super") (Some "choi"))
  | _, _ => Raise IndexError "list index out of range"
  end.

Definition kraus_to_super (kraus_list : list (Qobj T)) : result (Qobj T) :=
  c <- kraus_to_choi kraus_list ;; SuperopReps.choi_to_super c.

End FromKraus.

End KrausReps.

(** ** Further reference objects *)

Module ReferenceKraus.

(** Modelled from the spec: the eigen-decomposition of a diagonal matrix
    (its diagonal and the unit vectors), the integer square root, the
    column-stacking [vec2mat] and the product by a scalar. *)
Definition diag_eig (a : ndarray Z) : list Z * list (list Z) :=
  let n := Reference.nrows a in
  (map (fun i => Reference.entry (Sc := Reference.Scalar_Z) a i i) (seq 0 n),
   map (fun i => map (fun j => if i =? j then 1%Z else 0%Z) (seq 0 n))
       (seq 0 n)).

Definition ref_vec2mat (v : list Z) : ndarray Z :=
  let n := Nat.sqrt (length v) in
  Reference.matrix n n (fun i j => nth (j * n + i) v 0%Z).

Definition ref_scale (x : Z) (a : ndarray Z) : ndarray Z :=
  mk_ndarray (shape a) (map (Z.mul x) (buf a)).

Definition GZ : Eigen Z :=
  {| eig := diag_eig; csqrt := Z.sqrt; vec2mat := ref_vec2mat;
     scale := ref_scale |}.

(** The reference environment with the tidy-up policy switched off. *)
Definition EZ_untidied : Externals Z :=
  {| Qobj_init := Reference.ref_init (T := Z);
     Qobj_empty := Reference.ref_empty (Sc := Reference.Scalar_Z);
     classify := Reference.ref_classify;
     isherm := isherm (Externals := Reference.EZ);
     dag := Reference.ref_dag (Sc := Reference.Scalar_Z);
     qmul := Reference.ref_mul (Sc := Reference.Scalar_Z);
     tidyup := fun q => q;
     spre := Reference.ref_spre (Sc := Reference.Scalar_Z);
     spost := Reference.ref_spost (Sc := Reference.Scalar_Z);
     operator_to_vector :=
       Reference.ref_operator_to_vector (Sc := Reference.Scalar_Z);
     reshuffle := Reference.ref_reshuffle (T := Z);
     ket2dm := Reference.ref_ket2dm (Sc := Reference.Scalar_Z);
     kron := Reference.ref_kron (Sc := Reference.Scalar_Z);
     auto_tidyup := false;
     Qobj_init_data := fun _ _ _ _ => eq_refl;
     Qobj_init_dims := fun _ _ _ _ => eq_refl;
     Qobj_init_type := fun _ _ _ => eq_refl;
     tidyup_dims := fun _ => eq_refl;
     tidyup_isherm := fun _ => eq_refl;
     isherm_cached := isherm_cached (Externals := Reference.EZ) |}.

(** A diagonal Choi-tagged super-operator. *)
Definition S_diag : Qobj Z :=
  mk_Qobj (array [[4; 0; 0; 0]; [0; 9; 0; 0]; [0; 0; 1; 0]; [0; 0; 0; 0]]%Z)
          (Reference.super_dims_of 2) "super" (Some "choi") (Some true).

(** The vectorized Pauli X operator and its adjoint. *)
Definition vec_sigmax : Qobj Z :=
  Reference.ref_operator_to_vector (Sc := Reference.Scalar_Z)
                                   Reference.sigmax.
Definition bra_sigmax : Qobj Z :=
  Reference.ref_dag (Sc := Reference.Scalar_Z) vec_sigmax.

(** The basis bra of a qubit. *)
Definition bra0 : Qobj Z :=
  Reference.ref_dag (Sc := Reference.Scalar_Z) Reference.ket0.


End ReferenceKraus.

(** ** Vocabulary of the statements on Kraus operators *)

(** The matrix, as the list of its rows, whose entry [(i, j)] is
    [f i j]. *)
Definition table {T} (n m : nat) (f : nat -> nat -> T) : list (list T) :=
  map (fun i => map (f i) (seq 0 m)) (seq 0 n).

(** Sum over the operators of [A[i,c] * conj(A[j,r])], in the order of
    [sum]: from [0], left to right. *)
Definition kraus_sum {T} {Sc : Reference.Scalar T} (mats : list (ndarray T))
           (i c j r : nat) : T :=
  fold_left (fun s op =>
               Reference.sadd s
                 (Reference.smul (Reference.entry op i c)
                                 (Reference.sconj (Reference.entry op j r))))
            mats Reference.s0.

(** * Properties *)

Unset Implicit Arguments.

(** ** Index arithmetic of the axis permutation *)

Section GatherFacts.
Context {T : Type}.

Lemma gather_nth_error (l : list T) (idx : list nat) :
  Forall (fun i => i < length l) idx ->
  forall k, nth_error (gather idx l) k =
            match nth_error idx k with
            | Some i => nth_error l i
            | None => None
            end.
Proof.
  induction 1 as [|i idx Hi _ IH]; intros k; simpl.
  - now destruct k.
  - destruct (nth_error l i) as [x|] eqn:Hx.
    + destruct k; simpl; [now rewrite Hx | apply IH].
    + apply nth_error_None in Hx. lia.
Qed.

Lemma gather_length (l : list T) (idx : list nat) :
  Forall (fun i => i < length l) idx -> length (gather idx l) = length idx.
Proof.
  induction 1 as [|i idx Hi _ IH]; simpl; [reflexivity|].
  destruct (nth_error l i) eqn:Hx; simpl; [now rewrite IH|].
  apply nth_error_None in Hx. lia.
Qed.

End GatherFacts.

Lemma source_index_swap03 d i :
  source_index [3; 1; 2; 0] [d; d; d; d] i = swap03 d i.
Proof.
  unfold source_index, swap03. cbn [map nth unravel ravel seq length index_of Nat.eqb size_of fold_right].
  rewrite !Nat.mul_1_r, Nat.div_1_r. 
  replace (d * (d * d)) with (d * d * d) by lia. lia.
Qed.

Lemma div_mod_digit d q x : x < d -> (q * d + x) / d = q /\ (q * d + x) mod d = x.
Proof.
  intros Hx. split.
  - symmetry. apply Nat.div_unique with x; lia.
  - symmetry. apply Nat.mod_unique with q; lia.
Qed.

Lemma digits4 d a b c e :
  a < d -> b < d -> c < d -> e < d ->
  let i := a * (d * d * d) + b * (d * d) + c * d + e in
  i mod d = e /\ (i / d) mod d = c /\ (i / (d * d)) mod d = b /\
  (i / (d * d * d)) mod d = a.
Proof.
  intros Ha Hb Hc He i.
  assert (Hi : i = ((a * d + b) * d + c) * d + e) by (unfold i; lia).
  destruct (@div_mod_digit d ((a * d + b) * d + c) e He) as [D1 M1].
  destruct (@div_mod_digit d (a * d + b) c Hc) as [D2 M2].
  destruct (@div_mod_digit d a b Hb) as [D3 M3].
  assert (E1 : i / d = (a * d + b) * d + c) by (rewrite Hi; exact D1).
  assert (E2 : i / (d * d) = a * d + b) by (rewrite <- Nat.Div0.div_div, E1; exact D2).
  assert (E3 : i / (d * d * d) = a) by (rewrite <- Nat.Div0.div_div, E2; exact D3).
  repeat split.
  - rewrite Hi; exact M1.
  - rewrite E1; exact M2.
  - rewrite E2; exact M3.
  - rewrite E3. apply Nat.mod_small; exact Ha.
Qed.

Lemma swap03_spec d i :
  i < d * d * d * d ->
  exists a b c e, a < d /\ b < d /\ c < d /\ e < d /\
    i = a * (d * d * d) + b * (d * d) + c * d + e /\
    swap03 d i = e * (d * d * d) + b * (d * d) + c * d + a.
Proof.
  intros Hi.
  assert (Hd : 0 < d) by (destruct d; [simpl in Hi; lia | lia]).
  exists (i / (d * d * d)), ((i / (d * d)) mod d), ((i / d) mod d), (i mod d).
  assert (Ha : i / (d * d * d) < d).
  { apply Nat.Div0.div_lt_upper_bound. lia. }
  assert (Hsmall : (i / (d * d * d)) mod d = i / (d * d * d)) by (apply Nat.mod_small; exact Ha).
  repeat split; try (apply Nat.mod_upper_bound; lia); try exact Ha.
  - pose proof (Nat.div_mod_eq i d) as E1.
    pose proof (Nat.div_mod_eq (i / d) d) as E2.
    pose proof (Nat.div_mod_eq (i / d / d) d) as E3.
    rewrite !Nat.Div0.div_div in E3. rewrite Nat.Div0.div_div in E2.
    nia.
  - unfold swap03. rewrite Hsmall. reflexivity.
Qed.

Lemma digits4_bound d a b c e :
  a < d -> b < d -> c < d -> e < d ->
  a * (d * d * d) + b * (d * d) + c * d + e < d * d * d * d.
Proof.
  intros Ha Hb Hc He.
  assert (H1 : a * d + b < d * d) by nia.
  assert (H2 : (a * d + b) * d + c < d * d * d) by nia.
  assert (H3 : ((a * d + b) * d + c) * d + e < d * d * d * d) by nia.
  lia.
Qed.

Lemma swap03_lt d i : i < d * d * d * d -> swap03 d i < d * d * d * d.
Proof.
  intros Hi.
  destruct (@swap03_spec d i Hi) as (a & b & c & e & Ha & Hb & Hc & He & _ & ->).
  now apply digits4_bound.
Qed.

Lemma swap03_involutive d i : i < d * d * d * d -> swap03 d (swap03 d i) = i.
Proof.
  intros Hi. destruct (@swap03_spec d i Hi) as (a & b & c & e & Ha & Hb & Hc & He & E & ->).
  destruct (@digits4 d e b c a He Hb Hc Ha) as (M0 & M1 & M2 & M3).
  unfold swap03 at 1. cbv zeta in M0, M1, M2, M3.
  rewrite M0, M1, M2, M3. lia.
Qed.

Section TransposeFacts.
Context {T : Type}.

Lemma swap_idx_bound d n :
  n = d * d * d * d ->
  Forall (fun i => i < n) (map (swap03 d) (seq 0 (d * d * d * d))).
Proof.
  intros ->. apply Forall_forall. intros j Hj.
  apply in_map_iff in Hj. destruct Hj as (i & <- & Hi).
  apply in_seq in Hi. apply swap03_lt. lia.
Qed.

Lemma swap_buf_length d (l : list T) :
  length l = d * d * d * d -> length (swap_buf d l) = d * d * d * d.
Proof.
  intros Hl. unfold swap_buf. rewrite gather_length.
  - now rewrite length_map, length_seq.
  - apply swap_idx_bound. exact Hl.
Qed.

Lemma swap_buf_nth_error d (l : list T) k :
  length l = d * d * d * d -> k < d * d * d * d ->
  nth_error (swap_buf d l) k = nth_error l (swap03 d k).
Proof.
  intros Hl Hk. unfold swap_buf.
  rewrite gather_nth_error by (apply swap_idx_bound; exact Hl).
  rewrite nth_error_map, nth_error_seq.
  destruct (Nat.ltb_spec k (d * d * d * d)); [reflexivity | lia].
Qed.

Lemma swap_buf_involutive d (l : list T) :
  length l = d * d * d * d -> swap_buf d (swap_buf d l) = l.
Proof.
  intros Hl. apply nth_error_ext. intros k.
  destruct (Nat.lt_ge_cases k (d * d * d * d)) as [Hk|Hk].
  - rewrite swap_buf_nth_error; [| now apply swap_buf_length | exact Hk].
    rewrite swap_buf_nth_error; [| exact Hl | now apply swap03_lt].
    now rewrite swap03_involutive.
  - transitivity (@None T).
    + apply nth_error_None. rewrite swap_buf_length; [lia|]. now apply swap_buf_length.
    + symmetry. apply nth_error_None. lia.
Qed.

Lemma transpose_3120 d (l : list T) :
  transpose [3; 1; 2; 0] (mk_ndarray [d; d; d; d] l) =
  mk_ndarray [d; d; d; d] (swap_buf d l).
Proof.
  unfold transpose, swap_buf. cbn [shape buf map nth size_of fold_right].
  f_equal. f_equal.
  replace (d * (d * (d * (d * 1)))) with (d * d * d * d) by lia.
  apply map_ext. intros i. apply source_index_swap03.
Qed.

End TransposeFacts.

(** ** The Super/Choi transform *)

Section TransformFacts.
Context {T : Type} {E : Externals T}.

Lemma super_tofrom_choi_value (q : Qobj T) (d : nat) :
  shape (data q) = [d * d; d * d] ->
  _super_tofrom_choi q =
  Ok (Qobj_init (mk_ndarray [d * d; d * d] (swap_buf d (buf (data q))))
                (Some (dims q)) None None).
Proof.
  intros Hs. unfold _super_tofrom_choi.
  destruct (data q) as [sh l] eqn:Hd. cbn [shape buf] in *. subst sh.
  cbn [hd]. rewrite Nat.sqrt_square.
  unfold reshape. cbn [shape buf size_of fold_right].
  replace (d * (d * (d * (d * 1))) =? d * d * (d * d * 1)) with true
    by (symmetry; apply Nat.eqb_eq; lia).
  cbn [bind]. rewrite transpose_3120. cbn [shape buf size_of fold_right].
  replace (d * d * (d * d * 1) =? d * (d * (d * (d * 1)))) with true
    by (symmetry; apply Nat.eqb_eq; lia).
  reflexivity.
Qed.

(** The transform keeps the shape of the data, whatever the input. *)
Lemma super_tofrom_choi_shape (q r : Qobj T) :
  _super_tofrom_choi q = Ok r ->
  shape (data r) = shape (data q) /\ dims r = dims q /\
  type r = classify (dims q) (shape (data q)).
Proof.
  unfold _super_tofrom_choi.
  destruct (reshape (data q) _) as [t4|] eqn:H4; cbn [bind]; [|discriminate].
  unfold reshape at 1.
  destruct (_ =? _); cbn [bind]; [|discriminate].
  intros [= <-].
  rewrite Qobj_init_data, Qobj_init_dims, Qobj_init_type. now cbn [shape].
Qed.

Lemma super_tofrom_choi_involutive (X : Qobj T) (d : nat) :
  square_data d X ->
  exists Y X2, _super_tofrom_choi X = Ok Y /\ _super_tofrom_choi Y = Ok X2 /\
              data X2 = data X /\ dims X2 = dims X.
Proof.
  intros [Hs Hl].
  eexists; eexists. split; [apply super_tofrom_choi_value; exact Hs|].
  split.
  - apply super_tofrom_choi_value. now rewrite Qobj_init_data.
  - rewrite !Qobj_init_data, !Qobj_init_dims. cbn [buf]. split; [|reflexivity].
    rewrite swap_buf_involutive by exact Hl.
    destruct (data X) as [sh l]. cbn [shape buf] in *. now subst sh.
Qed.

Section Depolarizing.
Context {F : FloatOps T}.

Lemma dep_super_transform (pe : T) :
  _super_tofrom_choi (_dep_super pe) =
  Ok (Qobj_init
        (array [[fsub f1 (fdiv pe f2); f0; f0; fsub f1 pe];
                [f0; fdiv pe f2; f0; f0];
                [f0; f0; fdiv pe f2; f0];
                [fsub f1 pe; f0; f0; fsub f1 (fdiv pe f2)]])
        (Some ([DInt 2; DInt 2], [DInt 2; DInt 2])) None None).
Proof.
  rewrite (super_tofrom_choi_value (_dep_super pe) 2).
  - unfold _dep_super. rewrite Qobj_init_data, Qobj_init_dims. reflexivity.
  - unfold _dep_super. rewrite Qobj_init_data. reflexivity.
Qed.

End Depolarizing.

End TransformFacts.

(** C1: for every real [pe], the Super-to-Choi core transform (reshape to
    (2,2,2,2), permute the axes by (3,1,2,0), flatten back) applied to the
    qubit depolarizing Super matrix yields exactly the reference Choi
    matrix [[1-pe/2,0,0,1-pe],[0,pe/2,0,0],[0,0,pe/2,0],[1-pe,0,0,1-pe/2]],
    the matrix of [_dep_choi pe]. *)
Theorem dep_super_to_dep_choi (E : Externals R) (pe : R) :
  exists q,
    _super_tofrom_choi (_dep_super (F := Reference.FloatOps_R) pe) = Ok q /\
    data q = array [[1 - pe / 2; 0; 0; 1 - pe];
                    [0; pe / 2; 0; 0];
                    [0; 0; pe / 2; 0];
                    [1 - pe; 0; 0; 1 - pe / 2]]%R /\
    data q = data (_dep_choi (F := Reference.FloatOps_R) pe).
Proof.
  eexists. split; [apply dep_super_transform|].
  unfold _dep_choi. rewrite !Qobj_init_data. split; reflexivity.
Qed.

(** The fixture of the specification, [pe = 0.3]. *)
Lemma dep_super_to_dep_choi_witness :
  exists q,
    _super_tofrom_choi (E := Reference.ER)
      (_dep_super (E := Reference.ER) (F := Reference.FloatOps_R)
                  (3 / 10)%R) = Ok q /\
    data q = array [[1 - 3 / 10 / 2; 0; 0; 1 - 3 / 10];
                    [0; 3 / 10 / 2; 0; 0];
                    [0; 0; 3 / 10 / 2; 0];
                    [1 - 3 / 10; 0; 0; 1 - 3 / 10 / 2]]%R /\
    data q = data (_dep_choi (E := Reference.ER)
                             (F := Reference.FloatOps_R) (3 / 10)%R).
Proof.
  apply (dep_super_to_dep_choi Reference.ER (3 / 10)%R).
Defined.

(** ** The dispatch functions *)

Section DispatchFacts.
Context {T : Type} {E : Externals T}.

Lemma superrep_is_Some (q : Qobj T) (s : string) :
  superrep q = Some s -> superrep_is q s = true.
Proof. unfold superrep_is. intros ->. apply String.eqb_refl. Qed.

Lemma superrep_is_other (q : Qobj T) (s s' : string) :
  superrep q = Some s -> s <> s' -> superrep_is q s' = false.
Proof. unfold superrep_is. intros -> Hne. now apply String.eqb_neq. Qed.

(** An object already in the requested representation is returned
    unchanged. *)
Lemma to_choi_of_choi (q : Qobj T) :
  type q = "super" -> superrep q = Some "choi" -> to_choi q = Ok q.
Proof.
  intros Ht Hr. unfold to_choi.
  now rewrite Ht, (superrep_is_Some q _ Hr).
Qed.

Lemma to_super_of_super (q : Qobj T) :
  type q = "super" -> superrep q = Some "super" -> to_super q = Ok (PyQobj q).
Proof.
  intros Ht Hr. unfold to_super.
  now rewrite Ht, (superrep_is_Some q _ Hr).
Qed.

Lemma to_choi_of_super (q : Qobj T) :
  type q = "super" -> superrep q = Some "super" ->
  to_choi q = super_to_choi q.
Proof.
  intros Ht Hr. unfold to_choi.
  rewrite Ht, (superrep_is_other q _ "choi" Hr) by discriminate.
  now rewrite (superrep_is_Some q _ Hr).
Qed.

Lemma to_super_of_choi (q : Qobj T) :
  type q = "super" -> superrep q = Some "choi" ->
  to_super q = fmap (@PyQobj T) (choi_to_super q).
Proof.
  intros Ht Hr. unfold to_super.
  rewrite Ht, (superrep_is_other q _ "super" Hr) by discriminate.
  now rewrite (superrep_is_Some q _ Hr).
Qed.

(** What [super_to_choi] and [choi_to_super] return carries the tag they
    set, the dims of the argument and the kind the constructor gives. *)
Lemma super_to_choi_result (q r : Qobj T) :
  super_to_choi q = Ok r ->
  superrep r = Some "choi" /\
  type r = classify (dims q) (shape (data q)) /\
  shape (data r) = shape (data q) /\ dims r = dims q.
Proof.
  unfold super_to_choi.
  destruct (_super_tofrom_choi q) as [y|] eqn:Hy; cbn [bind]; [|discriminate].
  intros [= <-]. apply super_tofrom_choi_shape in Hy.
  cbn [set_superrep superrep type data dims]. tauto.
Qed.

Lemma choi_to_super_result (q r : Qobj T) :
  choi_to_super q = Ok r ->
  superrep r = Some "super" /\
  type r = classify (dims q) (shape (data q)) /\
  shape (data r) = shape (data q) /\ dims r = dims q.
Proof.
  unfold choi_to_super.
  destruct (super_to_choi q) as [y|] eqn:Hy; cbn [bind]; [|discriminate].
  intros [= <-]. apply super_to_choi_result in Hy.
  cbn [set_superrep superrep type data dims]. tauto.
Qed.

Lemma super_to_choi_data (q : Qobj T) (d : nat) :
  shape (data q) = [d * d; d * d] ->
  exists r, super_to_choi q = Ok r /\
            data r = mk_ndarray [d * d; d * d] (swap_buf d (buf (data q))).
Proof.
  intros Hs. unfold super_to_choi.
  rewrite (super_tofrom_choi_value q d Hs). cbn [bind].
  eexists. split; [reflexivity|].
  cbn [set_superrep data]. now rewrite Qobj_init_data.
Qed.

End DispatchFacts.

(** C2 (amended): the reshape-permute transform is an involution on
    [d*d] by [d*d] data: applying it twice returns the original matrix;
    and for every super-operator [X] tagged ['super'] with such data,
    [to_super(to_choi(X))] returns an object with the same matrix as
    [X]. *)
Theorem super_choi_super_round_trip {T} (E : Externals T) (X : Qobj T)
        (d : nat) :
  square_data d X ->
  type X = "super" ->
  superrep X = Some "super" ->
  classify (dims X) (shape (data X)) = "super" ->
  (exists Y X2, _super_tofrom_choi X = Ok Y /\ _super_tofrom_choi Y = Ok X2 /\
               data X2 = data X) /\
  (exists X2, (c <- to_choi X ;; to_super c) = Ok (PyQobj X2) /\
             data X2 = data X).
Proof.
  intros Hsq Ht Hr Hc. split.
  - destruct (super_tofrom_choi_involutive X d Hsq) as (Y & X2 & HY & HX2 & HD & _).
    now exists Y, X2.
  - destruct Hsq as [Hs Hl].
    rewrite (to_choi_of_super X Ht Hr).
    destruct (super_to_choi_data X d Hs) as (Y & HY & HYd).
    rewrite HY. cbn [bind].
    destruct (super_to_choi_result X Y HY) as (HYr & HYt & HYs & _).
    rewrite Hc in HYt.
    rewrite (to_super_of_choi Y HYt HYr).
    assert (HYs' : shape (data Y) = [d * d; d * d]) by now rewrite HYs.
    unfold choi_to_super.
    destruct (super_to_choi_data Y d HYs') as (X2 & HX2 & HX2d).
    rewrite HX2. cbn [bind fmap]. eexists. split; [reflexivity|].
    cbn [set_superrep data]. rewrite HX2d, HYd. cbn [buf].
    rewrite swap_buf_involutive by exact Hl.
    destruct (data X) as [sh l]. cbn [shape buf] in *. now subst sh.
Qed.

Lemma super_choi_super_round_trip_witness :
  (exists Y X2, _super_tofrom_choi (E := Reference.EZ) Reference.S_super = Ok Y /\
                _super_tofrom_choi (E := Reference.EZ) Y = Ok X2 /\
                data X2 = data Reference.S_super) /\
  (exists X2, (c <- to_choi (E := Reference.EZ) Reference.S_super ;;
               to_super (E := Reference.EZ) c) = Ok (PyQobj X2) /\
              data X2 = data Reference.S_super).
Proof.
  apply (super_choi_super_round_trip Reference.EZ Reference.S_super 2).
  - split; reflexivity.
  - reflexivity.
  - reflexivity.
  - reflexivity.
Defined.

(** C2 as stated fails on a super-operator tagged ['choi']: [to_choi]
    returns it unchanged and [to_super] applies the transform once. *)
Lemma round_trip_changes_choi_tagged :
  square_data 2 Reference.S_choi /\
  type Reference.S_choi = "super" /\
  exists X2, (c <- to_choi (E := Reference.EZ) Reference.S_choi ;;
              to_super (E := Reference.EZ) c) = Ok (PyQobj X2) /\
            data X2 <> data Reference.S_choi.
Proof.
  split; [split; reflexivity|]. split; [reflexivity|].
  eexists. split; [vm_compute; reflexivity|].
  vm_compute. discriminate.
Qed.

Section DispatchErrors.
Context {T : Type} {E : Externals T}.

(** One level of [to_kraus]. *)
Lemma to_kraus_rec_S {G : Eigen T} (n : nat) (q : Qobj T) :
  to_kraus_rec (S n) q =
  if String.eqb (type q) "super" then
    if superrep_is q "super" then c <- to_choi q ;; to_kraus_rec n c
    else if superrep_is q "choi" then
      fmap (fun ks => PyList (map (@PyQobj T) ks)) (choi_to_kraus q)
    else Ok PyNone
  else if String.eqb (type q) "oper" then Ok (PyList [PyQobj q])
  else Raise TypeError (conversion_message q "Kraus decomposition").
Proof. reflexivity. Qed.

Lemma to_choi_unknown_tag (q : Qobj T) :
  type q = "super" ->
  superrep_is q "choi" = false -> superrep_is q "super" = false ->
  to_choi q = Raise TypeError (str_superrep (superrep q)).
Proof. intros Ht H1 H2. unfold to_choi. now rewrite Ht, H1, H2. Qed.

Lemma to_super_other_kind (q : Qobj T) :
  type q <> "super" -> type q <> "oper" ->
  to_super q = Raise TypeError (conversion_message q "supermatrix").
Proof.
  intros H1 H2. unfold to_super.
  apply String.eqb_neq in H1, H2. now rewrite H1, H2.
Qed.

Lemma to_kraus_other_kind {G : Eigen T} (q : Qobj T) :
  type q <> "super" -> type q <> "oper" ->
  to_kraus q = Raise TypeError (conversion_message q "Kraus decomposition").
Proof.
  intros H1 H2. unfold to_kraus. change recursion_limit with (S 999).
  rewrite to_kraus_rec_S.
  apply String.eqb_neq in H1, H2. now rewrite H1, H2.
Qed.

(** On a super-operator whose tag is neither ['super'] nor ['choi'],
    [to_super] and [to_kraus] return [None]. *)
Lemma to_super_unknown_tag (q : Qobj T) :
  type q = "super" ->
  superrep_is q "super" = false -> superrep_is q "choi" = false ->
  to_super q = Ok PyNone.
Proof. intros Ht H1 H2. unfold to_super. now rewrite Ht, H1, H2. Qed.

Lemma to_kraus_unknown_tag {G : Eigen T} (q : Qobj T) :
  type q = "super" ->
  superrep_is q "super" = false -> superrep_is q "choi" = false ->
  to_kraus q = Ok PyNone.
Proof.
  intros Ht H1 H2. unfold to_kraus. change recursion_limit with (S 999).
  rewrite to_kraus_rec_S. now rewrite Ht, H1, H2.
Qed.

(** On a kind that is neither ['super'] nor ['oper'], [to_choi] raises
    [AttributeError]. *)
Lemma to_choi_other_kind (q : Qobj T) :
  type q <> "super" -> type q <> "oper" ->
  to_choi q = Raise AttributeError "'Qobj' object has no attribute 'choi'".
Proof.
  intros H1 H2. unfold to_choi.
  apply String.eqb_neq in H1, H2. now rewrite H1, H2.
Qed.

(** The nested call of [to_kraus] never goes deeper than two levels. *)
Lemma to_kraus_rec_depth {G : Eigen T} (n : nat) (q : Qobj T) :
  classify (dims q) (shape (data q)) = "super" ->
  to_kraus_rec (S (S n)) q = to_kraus_rec 2 q.
Proof.
  intros Hc. rewrite (to_kraus_rec_S (S n)), (to_kraus_rec_S 1).
  destruct (String.eqb (type q) "super") eqn:Ht; [|reflexivity].
  destruct (superrep_is q "super") eqn:Hr; [|reflexivity].
  apply String.eqb_eq in Ht.
  assert (Hr' : superrep q = Some "super").
  { unfold superrep_is in Hr. destruct (superrep q) as [r|]; [|discriminate].
    apply String.eqb_eq in Hr. now subst r. }
  rewrite (to_choi_of_super q Ht Hr').
  destruct (super_to_choi q) as [y|] eqn:Hy; cbn [bind]; [|reflexivity].
  destruct (super_to_choi_result q y Hy) as (Hyr & Hyt & _).
  rewrite Hc in Hyt.
  rewrite (to_kraus_rec_S n), (to_kraus_rec_S 0), Hyt.
  cbn [String.eqb Ascii.eqb Bool.eqb].
  rewrite (superrep_is_other y _ "super" Hyr) by discriminate.
  now rewrite (superrep_is_Some y _ Hyr).
Qed.

End DispatchErrors.

(** C3, evaluated where the code departs from it: on a super-operator
    tagged ['chi'], [to_super] and [to_kraus] return [None] instead of
    raising [TypeError]; on a ket, [to_choi] raises [AttributeError]
    instead of [TypeError]. *)
Theorem dispatch_without_TypeError :
  to_super (E := Reference.EZ) Reference.S_chi = Ok PyNone /\
  (forall G : Eigen Z,
      to_kraus (E := Reference.EZ) (G := G) Reference.S_chi = Ok PyNone) /\
  to_choi (E := Reference.EZ) Reference.ket0 =
  Raise AttributeError "'Qobj' object has no attribute 'choi'".
Proof.
  split; [|split].
  - now apply to_super_unknown_tag.
  - intros G. now apply to_kraus_unknown_tag.
  - apply to_choi_other_kind; discriminate.
Qed.

(** C8: [to_choi] and [to_super] are idempotent on every super-operator
    [X] (kind ['super'], tag ['super'] or ['choi'], classified as a
    super-operator by its dims): [to_choi(to_choi(X))] is [to_choi(X)]
    and [to_super(to_super(X))] is [to_super(X)]. *)
Theorem dispatch_idempotent {T} (E : Externals T) (X : Qobj T) :
  type X = "super" ->
  superrep X = Some "super" \/ superrep X = Some "choi" ->
  classify (dims X) (shape (data X)) = "super" ->
  (c <- to_choi X ;; to_choi c) = to_choi X /\
  (s <- to_super X ;; call to_super s) = to_super X.
Proof.
  intros Ht [Hr|Hr] Hc.
  - split.
    + rewrite (to_choi_of_super X Ht Hr).
      destruct (super_to_choi X) as [Y|] eqn:HY; cbn [bind]; [|reflexivity].
      destruct (super_to_choi_result X Y HY) as (HYr & HYt & _).
      rewrite Hc in HYt. now apply to_choi_of_choi.
    + rewrite (to_super_of_super X Ht Hr). cbn [bind call].
      now apply to_super_of_super.
  - split.
    + rewrite (to_choi_of_choi X Ht Hr). cbn [bind].
      now apply to_choi_of_choi.
    + rewrite (to_super_of_choi X Ht Hr).
      destruct (choi_to_super X) as [Y|] eqn:HY; cbn [bind fmap call];
        [|reflexivity].
      destruct (choi_to_super_result X Y HY) as (HYr & HYt & _).
      rewrite Hc in HYt. now apply to_super_of_super.
Qed.

Lemma dispatch_idempotent_witness :
  (c <- to_choi (E := Reference.EZ) Reference.S_super ;;
   to_choi (E := Reference.EZ) c) =
  to_choi (E := Reference.EZ) Reference.S_super /\
  (s <- to_super (E := Reference.EZ) Reference.S_super ;;
   call (to_super (E := Reference.EZ)) s) =
  to_super (E := Reference.EZ) Reference.S_super.
Proof.
  apply (dispatch_idempotent Reference.EZ Reference.S_super).
  - reflexivity.
  - left. reflexivity.
  - reflexivity.
Defined.

(** ** The loop of [tensor] *)

Section TensorFacts.
Context {T : Type} {E : Externals T}.

Lemma forallb_is_Qobj (qs : list (Qobj T)) :
  forallb (@is_Qobj T) (map (@PyQobj T) qs) = true.
Proof. induction qs; simpl; auto. Qed.

Lemma qobjs_map (qs : list (Qobj T)) : qobjs (map (@PyQobj T) qs) = qs.
Proof. induction qs; simpl; congruence. Qed.

(** After the first turn the index of the turn no longer matters. *)
Lemma fold_tensor_step_later (qs : list (Qobj T)) :
  forall (k : nat) (out : Qobj T),
    0 < k ->
    fold_left tensor_step (combine (seq k (length qs)) qs) out =
    fold_left (fun o q => tensor_step o (1, q)) qs out.
Proof.
  induction qs as [|q qs IH]; intros k out Hk; [reflexivity|].
  cbn [length seq combine fold_left].
  rewrite IH by lia. f_equal.
  destruct k; [lia | reflexivity].
Qed.

Lemma enumerate_cons_fold (q0 : Qobj T) (rest : list (Qobj T))
      (out : Qobj T) :
  fold_left tensor_step (enumerate (q0 :: rest)) out =
  fold_left (fun o q => tensor_step o (1, q)) rest (tensor_step out (0, q0)).
Proof.
  unfold enumerate. cbn [length seq combine fold_left].
  apply fold_tensor_step_later. lia.
Qed.

Lemma later_steps_data (rest : list (Qobj T)) :
  forall out,
    data (fold_left (fun o q => tensor_step o (1, q)) rest out) =
    fold_left kron (map (@data T) rest) (data out).
Proof.
  induction rest as [|q rest IH]; intros out; [reflexivity|].
  cbn [fold_left map]. now rewrite IH.
Qed.

Lemma later_steps_dims (rest : list (Qobj T)) :
  forall out,
    dims (fold_left (fun o q => tensor_step o (1, q)) rest out) =
    (fst (dims out) ++ concat (map (fun q => fst (dims q)) rest),
     snd (dims out) ++ concat (map (fun q => snd (dims q)) rest)).
Proof.
  induction rest as [|q rest IH]; intros out.
  - cbn [fold_left map concat]. rewrite !app_nil_r. now destruct (dims out).
  - cbn [fold_left map concat]. rewrite IH.
    cbn [tensor_step Nat.eqb set_isherm set_dims set_data dims fst snd].
    now rewrite !app_assoc.
Qed.

Lemma py_and_andb (a b : bool) : py_and a b = a && b.
Proof. now destruct a. Qed.

(** A turn of the loop reads the flag of [out] from its cache, which the
    assignments to the data and the dims leave alone. *)
Lemma tensor_step_isherm (out : Qobj T) (n : nat) (q : Qobj T) (h : bool) :
  _isherm out = Some h ->
  _isherm (tensor_step out (n, q)) = Some (h && isherm q).
Proof.
  intros Hh. unfold tensor_step.
  destruct (n =? 0); cbn [set_isherm _isherm];
    rewrite py_and_andb; do 2 f_equal; now apply isherm_cached.
Qed.

Lemma later_steps_isherm (rest : list (Qobj T)) :
  forall out h,
    _isherm out = Some h ->
    _isherm (fold_left (fun o q => tensor_step o (1, q)) rest out) =
    Some (h && forallb isherm rest).
Proof.
  induction rest as [|q rest IH]; intros out h Hh; cbn [fold_left forallb].
  - now rewrite andb_true_r.
  - rewrite (IH _ _ (tensor_step_isherm out 1 q h Hh)).
    now rewrite andb_assoc.
Qed.

(** The flag the loop leaves in the cache of the object it builds. *)
Lemma loop_isherm (out0 q0 : Qobj T) (rest : list (Qobj T)) :
  _isherm (fold_left (fun o q => tensor_step o (1, q)) rest
                     (tensor_step (set_isherm out0 (Some true)) (0, q0))) =
  Some (all_hermitian (q0 :: rest)).
Proof.
  rewrite (later_steps_isherm rest _ (isherm q0)).
  - reflexivity.
  - now rewrite (tensor_step_isherm _ 0 q0 true).
Qed.

(** What [tensor] computes on a list of quantum objects that passes the
    check on the tags. *)
Lemma tensor_qlist_value (q0 : Qobj T) (rest : list (Qobj T)) :
  representation_check (q0 :: rest) = true ->
  exists out0 out,
    out = fold_left (fun o q => tensor_step o (1, q)) rest
                    (tensor_step (set_isherm out0 (Some true)) (0, q0)) /\
    tensor_qlist (map (@PyQobj T) (q0 :: rest)) =
    Ok (tidied (if negb (isherm out) then set_isherm out None
                else out)).
Proof.
  intros Hc. unfold tensor_qlist.
  rewrite forallb_is_Qobj, qobjs_map. cbn [negb].
  unfold representation_check in Hc.
  destruct (issuper q0) eqn:Hs; cbn [negb orb] in Hc.
  - cbn [set_superrep superrep]. rewrite Hc. cbn [negb bind].
    eexists; eexists. split; [reflexivity|].
    now rewrite enumerate_cons_fold.
  - cbn [bind]. eexists; eexists. split; [reflexivity|].
    now rewrite enumerate_cons_fold.
Qed.

Lemma tensor_two_or_more (q0 q1 : Qobj T) (rest : list (Qobj T)) :
  tensor (map (@PyQobj T) (q0 :: q1 :: rest)) =
  tensor_qlist (map (@PyQobj T) (q0 :: q1 :: rest)).
Proof. reflexivity. Qed.

(** The single-list form of the call runs the same body. *)
Lemma tensor_list_form (q0 q1 : Qobj T) (rest : list (Qobj T)) :
  tensor [PyList (map (@PyQobj T) (q0 :: q1 :: rest))] =
  tensor (map (@PyQobj T) (q0 :: q1 :: rest)).
Proof. reflexivity. Qed.

(** When the first operand is not a super-operator the tags are not
    compared and [tensor] returns. *)
Lemma tensor_first_not_super (q0 q1 : Qobj T) (rest : list (Qobj T)) :
  issuper q0 = false ->
  exists out, tensor (map (@PyQobj T) (q0 :: q1 :: rest)) = Ok out.
Proof.
  intros Hs. rewrite tensor_two_or_more.
  destruct (tensor_qlist_value q0 (q1 :: rest)) as (out0 & out & _ & ->).
  - unfold representation_check. now rewrite Hs.
  - eexists. reflexivity.
Qed.

Lemma superrep_eqb_eq (a b : option string) :
  superrep_eqb a b = true <-> a = b.
Proof.
  destruct a as [x|], b as [y|]; simpl; split; try congruence.
  - intros H. apply String.eqb_eq in H. congruence.
  - intros [= ->]. apply String.eqb_refl.
Qed.

(** One level of [super_tensor] on a first argument that is no list. *)
Lemma super_tensor_rec_S (n : nat) (q0 : Qobj T) (rest : list (pyval T)) :
  super_tensor_rec (S n) (PyQobj q0 :: rest) =
  let args := PyQobj q0 :: rest in
  all_super <- all_gen (getattr "issuper" (@issuper T)) args ;;
  if all_super then
    if negb (forallb (fun q => superrep_is q "super") (qobjs args))
    then Raise TypeError
           ("super_tensor on type='super' is only implemented for " ++
            "superrep='super'.")%string
    else
      out <- shuffled_product args ;;
      match qobjs args with
      | [] => Raise IndexError "index out of range"
      | q0 :: _ => Ok (set_superrep out (superrep q0))
      end
  else
    all_operket <- all_gen (getattr "isoperket" (@isoperket T)) args ;;
    if all_operket then shuffled_product args
    else
      all_operbra <- all_gen (getattr "isoperbra" (@isoperbra T)) args ;;
      if all_operbra then
        r <- super_tensor_rec n (map (fun q => PyQobj (dag q)) (qobjs args)) ;;
        Ok (dag r)
      else Raise TypeError
             ("All arguments must be the same type, " ++
              "either super, operator-ket or operator-bra.")%string.
Proof. reflexivity. Qed.

Lemma all_gen_getattr (name : string) (f : Qobj T -> bool)
      (qs : list (Qobj T)) :
  all_gen (getattr name f) (map (@PyQobj T) qs) = Ok (forallb f qs).
Proof.
  induction qs as [|q qs IH]; [reflexivity|].
  cbn [map all_gen getattr bind forallb].
  destruct (f q); [exact IH | reflexivity].
Qed.

(** The object the loop of [tensor] builds from a list of quantum
    objects that passes the check on the tags. *)
Lemma tensor_built_object (q0 : Qobj T) (rest : list (Qobj T)) :
  representation_check (q0 :: rest) = true ->
  exists raw,
    tensor_qlist (map (@PyQobj T) (q0 :: rest)) = Ok (tidied raw) /\
    data raw = fold_left kron (map (@data T) rest) (data q0) /\
    dims raw = (concat (map (fun q => fst (dims q)) (q0 :: rest)),
                concat (map (fun q => snd (dims q)) (q0 :: rest))) /\
    _isherm raw = if all_hermitian (q0 :: rest) then Some true else None.
Proof.
  intros Hc.
  destruct (tensor_qlist_value q0 rest Hc) as (out0 & out & Hout & ->).
  eexists. split; [reflexivity|].
  assert (Hd : data out = fold_left kron (map (@data T) rest) (data q0)).
  { rewrite Hout, later_steps_data. reflexivity. }
  assert (Hdims : dims out =
                  (concat (map (fun q => fst (dims q)) (q0 :: rest)),
                   concat (map (fun q => snd (dims q)) (q0 :: rest)))).
  { rewrite Hout, later_steps_dims. reflexivity. }
  assert (Hf : _isherm out = Some (all_hermitian (q0 :: rest))).
  { rewrite Hout. apply loop_isherm. }
  rewrite (isherm_cached _ _ Hf).
  destruct (all_hermitian (q0 :: rest)); cbn [negb].
  - now repeat split.
  - cbn [set_isherm data dims _isherm]. now repeat split.
Qed.

Lemma tidied_dims (q : Qobj T) : dims (tidied q) = dims q.
Proof. unfold tidied. destruct auto_tidyup; [apply tidyup_dims | reflexivity]. Qed.

Lemma tidied_isherm (q : Qobj T) : _isherm (tidied q) = _isherm q.
Proof.
  unfold tidied. destruct auto_tidyup; [apply tidyup_isherm | reflexivity].
Qed.

(** A cached flag decides what the property reads on every operand. *)
Lemma all_hermitian_cached_true (qs : list (Qobj T)) :
  (forall q, In q qs -> _isherm q = Some true) -> all_hermitian qs = true.
Proof.
  intros Hall. unfold all_hermitian. apply forallb_forall.
  intros q Hin. now apply isherm_cached, Hall.
Qed.

Lemma all_hermitian_cached_false (qs : list (Qobj T)) (q : Qobj T) :
  In q qs -> _isherm q = Some false -> all_hermitian qs = false.
Proof.
  intros Hin Hq. apply not_true_is_false. intros Hall.
  unfold all_hermitian in Hall. rewrite forallb_forall in Hall.
  specialize (Hall q Hin). rewrite (isherm_cached q false Hq) in Hall.
  discriminate.
Qed.

End TensorFacts.

(** ** [tensor] *)

(** C7 (amended): for two or more operands that pass the check [tensor]
    makes on the representation tags, [tensor] returns an object whose
    dims are the first dims-lists of all operands and the second
    dims-lists of all operands, concatenated in call order.  The object
    it builds has as data the iterated Kronecker product of the
    operands' data, left to right; it is returned as built when the
    tidy-up policy [auto_tidyup] is off, so that the returned data are
    that product, and after the clean-up pass [tidyup] otherwise. *)
Theorem tensor_kron_and_dims {T} (E : Externals T) (q0 q1 : Qobj T)
        (rest : list (Qobj T)) :
  representation_check (q0 :: q1 :: rest) = true ->
  exists r raw,
    tensor (map (@PyQobj T) (q0 :: q1 :: rest)) = Ok r /\
    data raw = fold_left kron (map (@data T) (q1 :: rest)) (data q0) /\
    r = (if auto_tidyup then tidyup raw else raw) /\
    dims r =
    (concat (map (fun q => fst (dims q)) (q0 :: q1 :: rest)),
     concat (map (fun q => snd (dims q)) (q0 :: q1 :: rest))) /\
    (auto_tidyup = false ->
     data r = fold_left kron (map (@data T) (q1 :: rest)) (data q0)).
Proof.
  intros Hc. rewrite tensor_two_or_more.
  destruct (tensor_built_object q0 (q1 :: rest) Hc)
    as (raw & Hr & Hd & Hdims & _).
  exists (tidied raw), raw.
  split; [exact Hr|]. split; [exact Hd|]. split; [reflexivity|].
  split.
  - now rewrite tidied_dims.
  - intros Hoff. unfold tidied. now rewrite Hoff.
Qed.

(** [tensor(A, B)] for [A] of dims [[2],[2]] and [B] of dims
    [[3],[3]], with the tidy-up policy off. *)
Lemma tensor_kron_and_dims_witness :
  exists r,
    tensor (E := ReferenceKraus.EZ_untidied)
           [PyQobj Reference.sigmax; PyQobj Reference.shift3] = Ok r /\
    data r = kron (Externals := ReferenceKraus.EZ_untidied)
                  (data Reference.sigmax) (data Reference.shift3) /\
    dims r = ([DInt 2; DInt 3], [DInt 2; DInt 3]).
Proof.
  destruct (tensor_kron_and_dims ReferenceKraus.EZ_untidied
              Reference.sigmax Reference.shift3 [])
    as (r & raw & Hr & _ & _ & Hdims & Hdata).
  - reflexivity.
  - exists r. split; [exact Hr|]. split; [|exact Hdims].
    apply Hdata. reflexivity.
Defined.

(** C7 as stated fails: on two super-operators whose representation
    tags differ [tensor] returns no object. *)
Lemma tensor_no_product_on_mixed_tags :
  superrep Reference.S_super = Some "super" /\
  superrep Reference.S_choi = Some "choi" /\
  tensor (E := Reference.EZ)
         [PyQobj Reference.S_super; PyQobj Reference.S_choi] =
  Raise TypeError
        ("In tensor products of superroperators, all must" ++
         "have the same representation")%string.
Proof. repeat split; reflexivity. Qed.

(** C4 (amended): for two or more operands (that pass the check on the
    representation tags), the hermiticity flag of the result of [tensor]
    is true when the property [isherm] reads true on every operand, and
    unknown otherwise; it is never false.  The property returns a cached
    flag, so that the result flag is true when every operand flag is
    true, and unknown as soon as one operand flag is false; a flag that
    is unknown is decided by the getter. *)
Theorem tensor_hermiticity_flag {T} (E : Externals T) (q0 q1 : Qobj T)
        (rest : list (Qobj T)) :
  representation_check (q0 :: q1 :: rest) = true ->
  exists out,
    tensor (map (@PyQobj T) (q0 :: q1 :: rest)) = Ok out /\
    _isherm out =
    (if all_hermitian (q0 :: q1 :: rest) then Some true else None) /\
    _isherm out <> Some false /\
    ((forall q, In q (q0 :: q1 :: rest) -> _isherm q = Some true) ->
     _isherm out = Some true) /\
    ((exists q, In q (q0 :: q1 :: rest) /\ _isherm q = Some false) ->
     _isherm out = None).
Proof.
  intros Hc. rewrite tensor_two_or_more.
  destruct (tensor_built_object q0 (q1 :: rest) Hc)
    as (raw & Hr & _ & _ & Hf).
  exists (tidied raw). split; [exact Hr|].
  rewrite tidied_isherm, Hf.
  split; [reflexivity|]. split; [|split].
  - now destruct (all_hermitian (q0 :: q1 :: rest)).
  - intros Hall. now rewrite all_hermitian_cached_true.
  - intros (q & Hin & Hq).
    now rewrite (all_hermitian_cached_false _ q Hin Hq).
Qed.

(** [tensor(sigmax, sigmaz)]: the flag of [sigmaz] is unknown and the
    getter decides it from the matrix. *)
Lemma tensor_hermiticity_flag_witness :
  _isherm Reference.sigmaz = None /\
  exists out,
    tensor (E := Reference.EZ)
           [PyQobj Reference.sigmax; PyQobj Reference.sigmaz] = Ok out /\
    _isherm out = Some true.
Proof.
  split; [reflexivity|].
  destruct (tensor_hermiticity_flag Reference.EZ
              Reference.sigmax Reference.sigmaz [])
    as (out & Hr & Hf & _).
  - reflexivity.
  - exists out. split; [exact Hr | exact Hf].
Defined.

(** C4 as stated fails: with one operand flag true and the other false
    (none unknown) the flag of the result is unknown, not false. *)
Lemma tensor_flag_false_becomes_unknown :
  _isherm Reference.sigmax = Some true /\
  _isherm Reference.sigmam = Some false /\
  exists out,
    tensor (E := Reference.EZ)
           [PyQobj Reference.sigmax; PyQobj Reference.sigmam] = Ok out /\
    _isherm out = None /\
    _isherm out <> Some false.
Proof.
  split; [reflexivity|]. split; [reflexivity|].
  eexists. split; [vm_compute; reflexivity|].
  cbn [_isherm]. split; [reflexivity | discriminate].
Qed.

(** C5 (amended): when the first operand of [tensor] is a super-operator
    and some operand does not have its representation tag, the call
    raises [TypeError]; so does [super_tensor] on the same operands. *)
Theorem mixed_representation_rejected {T} (E : Externals T) (q0 q : Qobj T)
        (rest : list (Qobj T)) :
  issuper q0 = true ->
  In q rest ->
  superrep q <> superrep q0 ->
  is_raise (tensor (map (@PyQobj T) (q0 :: rest))) TypeError /\
  is_raise (super_tensor (map (@PyQobj T) (q0 :: rest))) TypeError.
Proof.
  intros Hs Hin Hne.
  assert (Hall : forallb (fun x => superrep_eqb (superrep x) (superrep q0))
                         (q0 :: rest) = false).
  { apply not_true_is_false. intros Hall.
    rewrite forallb_forall in Hall.
    apply Hne, superrep_eqb_eq, Hall. now right. }
  split.
  - destruct rest as [|q1 rest]; [destruct Hin|].
    rewrite tensor_two_or_more. unfold tensor_qlist.
    rewrite forallb_is_Qobj, qobjs_map. cbn [negb].
    rewrite Hs. cbn [set_superrep superrep]. rewrite Hall. cbn [negb bind].
    eexists. reflexivity.
  - unfold super_tensor. change recursion_limit with (S 999).
    cbn [map]. rewrite super_tensor_rec_S. cbv zeta.
    change (PyQobj q0 :: map (@PyQobj T) rest)
      with (map (@PyQobj T) (q0 :: rest)).
    rewrite !all_gen_getattr, qobjs_map. cbn [bind].
    destruct (forallb (@issuper T) (q0 :: rest)) eqn:Hsup.
    + assert (Hrep : forallb (fun x => superrep_is x "super") (q0 :: rest)
                     = false).
      { apply not_true_is_false. intros Hrep.
        rewrite forallb_forall in Hrep.
        assert (Hq0 : superrep_is q0 "super" = true)
          by (apply Hrep; now left).
        assert (Hq : superrep_is q "super" = true)
          by (apply Hrep; now right).
        unfold superrep_is in Hq0, Hq.
        destruct (superrep q0) as [r0|]; [|discriminate].
        destruct (superrep q) as [r|]; [|discriminate].
        apply String.eqb_eq in Hq0, Hq. congruence. }
      rewrite Hrep. cbn [negb]. eexists. reflexivity.
    + assert (Hk : isoperket q0 = false).
      { unfold issuper in Hs. unfold isoperket.
        apply String.eqb_eq in Hs. now rewrite Hs. }
      assert (Hb : isoperbra q0 = false).
      { unfold issuper in Hs. unfold isoperbra.
        apply String.eqb_eq in Hs. now rewrite Hs. }
      cbn [forallb]. rewrite Hk, Hb. cbn [andb bind].
      eexists. reflexivity.
Qed.

Lemma mixed_representation_rejected_witness :
  is_raise (tensor (E := Reference.EZ)
                   (map (@PyQobj Z) [Reference.S_super; Reference.S_choi]))
           TypeError /\
  is_raise (super_tensor (E := Reference.EZ)
                         (map (@PyQobj Z) [Reference.S_super; Reference.S_choi]))
           TypeError.
Proof.
  apply (mixed_representation_rejected Reference.EZ
           Reference.S_super Reference.S_choi [Reference.S_choi]).
  - reflexivity.
  - left. reflexivity.
  - discriminate.
Defined.

(** C5 as stated fails when the super-operators are not in first
    position: no check is made and [tensor] returns a result for
    operands of mixed representation. *)
Lemma tensor_accepts_mixed_representation :
  issuper Reference.S_super = true /\
  issuper Reference.S_choi = true /\
  superrep Reference.S_super <> superrep Reference.S_choi /\
  exists out,
    tensor (E := Reference.EZ)
           [PyQobj Reference.sigmax; PyQobj Reference.S_super;
            PyQobj Reference.S_choi] = Ok out.
Proof.
  split; [reflexivity|]. split; [reflexivity|]. split; [discriminate|].
  eexists. vm_compute. reflexivity.
Qed.

(** C6 (amended): calling [tensor] with no argument raises [TypeError],
    the exception class of the other failures of [tensor], with the
    message "Requires at least one input argument". *)
Theorem tensor_no_argument {T} (E : Externals T) :
  tensor (T := T) [] =
  Raise TypeError "Requires at least one input argument".
Proof. reflexivity. Qed.

(** C6 as stated fails: the exception is not an [ArgumentError]; it has
    the class raised for an operand that is not a quantum object. *)
Lemma tensor_no_argument_not_ArgumentError :
  ~ is_raise (tensor (E := Reference.EZ) []) ArgumentError /\
  is_raise (tensor (E := Reference.EZ) []) TypeError /\
  is_raise (tensor (E := Reference.EZ) [PyNone; PyNone]) TypeError.
Proof.
  split; [|split].
  - intros [msg H]. discriminate H.
  - eexists. reflexivity.
  - eexists. reflexivity.
Qed.

(** ** [super_tensor] and [composite] *)

(** C10: [super_tensor] called with no argument raises [IndexError], from
    reading its first argument; it makes no emptiness check and raises
    neither [TypeError] nor [ArgumentError]. *)
Theorem super_tensor_no_argument {T} (E : Externals T) :
  super_tensor (T := T) [] = Raise IndexError "tuple index out of range" /\
  ~ is_raise (super_tensor (T := T) []) TypeError /\
  ~ is_raise (super_tensor (T := T) []) ArgumentError.
Proof.
  assert (H : super_tensor (T := T) [] =
              Raise IndexError "tuple index out of range") by reflexivity.
  split; [exact H|].
  rewrite H. split; intros [msg Hm]; discriminate Hm.
Qed.

Section CompositeFacts.
Context {T : Type} {E : Externals T}.

(** One level of [composite]. *)
Lemma composite_rec_S (n : nat) (args : list (pyval T)) :
  composite_rec (S n) args =
  if negb (forallb (@is_Qobj T) args) then
    Raise TypeError "All arguments must be Qobjs."
  else
    let qs := qobjs args in
    if forallb _isoperlike qs then
      if existsb (@issuper T) qs then
        promoted <- mapM to_super qs ;; super_tensor promoted
      else tensor args
    else if forallb _isketlike qs then
      if existsb (@isoperket T) qs then
        super_tensor
          (map (fun arg => PyQobj (if isoperket arg then arg
                                   else operator_to_vector (ket2dm arg)))
               qs)
      else tensor args
    else if forallb _isbralike qs then
      r <- composite_rec n (map (fun q => PyQobj (dag q)) qs) ;;
      Ok (dag r)
    else Raise TypeError
           ("Unsupported Qobj types [" ++
            String.concat ", " (map (@type T) qs) ++ "].")%string.
Proof. reflexivity. Qed.

Lemma to_super_of_oper (U : Qobj T) :
  type U = "oper" ->
  to_super U = Ok (PyQobj (qmul (spre U) (spost (dag U)))).
Proof. intros Ht. unfold to_super. now rewrite Ht. Qed.

(** With an operator and a super-operator, [composite] promotes both
    operands with [to_super] and calls [super_tensor]. *)
Lemma composite_oper_super (U V : Qobj T) :
  type U = "oper" -> type V = "super" ->
  composite [PyQobj U; PyQobj V] =
  (u <- to_super U ;; s <- to_super V ;; super_tensor [u; s]).
Proof.
  intros HU HV. unfold composite. change recursion_limit with (S 999).
  rewrite composite_rec_S.
  cbn [forallb is_Qobj andb negb qobjs existsb].
  unfold _isoperlike, isoper, issuper. rewrite HU, HV.
  cbn [String.eqb Ascii.eqb Bool.eqb orb andb mapM].
  rewrite (to_super_of_oper U HU). cbn [bind].
  destruct (to_super V) as [s|c msg]; cbn [bind]; reflexivity.
Qed.

End CompositeFacts.

(** C9 (amended): for every plain operator [U] and every super-operator
    [V], [composite(U, V)] is [super_tensor(to_super(U), to_super(V))];
    when [V] is tagged ['super'], on which [to_super] is a no-op, it is
    [super_tensor(to_super(U), V)]. *)
Theorem composite_promotes_operator {T} (E : Externals T) (U V : Qobj T) :
  type U = "oper" ->
  type V = "super" ->
  composite [PyQobj U; PyQobj V] =
  (u <- to_super U ;; s <- to_super V ;; super_tensor [u; s]) /\
  (superrep V = Some "super" ->
   composite [PyQobj U; PyQobj V] =
   (u <- to_super U ;; super_tensor [u; PyQobj V])).
Proof.
  intros HU HV. split; [now apply composite_oper_super|].
  intros Hr. rewrite (composite_oper_super U V HU HV).
  now rewrite (to_super_of_super V HV Hr).
Qed.

Lemma composite_promotes_operator_witness :
  composite (E := Reference.EZ)
            [PyQobj Reference.sigmax; PyQobj Reference.S_super] =
  (u <- to_super (E := Reference.EZ) Reference.sigmax ;;
   s <- to_super (E := Reference.EZ) Reference.S_super ;;
   super_tensor (E := Reference.EZ) [u; s]) /\
  (superrep Reference.S_super = Some "super" ->
   composite (E := Reference.EZ)
             [PyQobj Reference.sigmax; PyQobj Reference.S_super] =
   (u <- to_super (E := Reference.EZ) Reference.sigmax ;;
    super_tensor (E := Reference.EZ) [u; PyQobj Reference.S_super])).
Proof.
  apply (composite_promotes_operator Reference.EZ
           Reference.sigmax Reference.S_super).
  - reflexivity.
  - reflexivity.
Defined.

(** C9 as stated fails on a super-operator tagged ['choi']: [composite]
    converts it and returns the product, [super_tensor] on the
    unconverted operand raises [TypeError]. *)
Lemma composite_differs_on_choi_tagged :
  type Reference.sigmax = "oper" /\
  type Reference.S_choi = "super" /\
  (exists out,
      composite (E := Reference.EZ)
                [PyQobj Reference.sigmax; PyQobj Reference.S_choi] = Ok out) /\
  is_raise (u <- to_super (E := Reference.EZ) Reference.sigmax ;;
            super_tensor (E := Reference.EZ) [u; PyQobj Reference.S_choi])
           TypeError /\
  composite (E := Reference.EZ)
            [PyQobj Reference.sigmax; PyQobj Reference.S_choi] <>
  (u <- to_super (E := Reference.EZ) Reference.sigmax ;;
   super_tensor (E := Reference.EZ) [u; PyQobj Reference.S_choi]).
Proof.
  split; [reflexivity|]. split; [reflexivity|].
  assert (HL : exists out,
             composite (E := Reference.EZ)
               [PyQobj Reference.sigmax; PyQobj Reference.S_choi] = Ok out).
  { eexists. vm_compute. reflexivity. }
  assert (HR : is_raise
                 (u <- to_super (E := Reference.EZ) Reference.sigmax ;;
                  super_tensor (E := Reference.EZ)
                               [u; PyQobj Reference.S_choi]) TypeError).
  { eexists. vm_compute. reflexivity. }
  split; [exact HL|]. split; [exact HR|].
  destruct HL as [out ->]. destruct HR as [msg ->]. discriminate.
Qed.

(** * Further properties *)

(** ** The Super/Choi transform on arbitrary data *)

Section TransformMore.
Context {T : Type} {E : Externals T}.

Lemma gather_seq_all (l : list T) : gather (seq 0 (length l)) l = l.
Proof.
  apply nth_error_ext. intros k.
  rewrite gather_nth_error.
  - rewrite nth_error_seq.
    destruct (Nat.ltb_spec k (length l)) as [Hk|Hk]; [reflexivity|].
    symmetry. now apply nth_error_None.
  - apply Forall_forall. intros i Hi. apply in_seq in Hi. lia.
Qed.

Lemma gather_Permutation (l : list T) (idx idx' : list nat) :
  Permutation idx idx' -> Permutation (gather idx l) (gather idx' l).
Proof.
  induction 1 as [|i idx idx' _ IH|i j idx|idx1 idx2 idx3 _ IH1 _ IH2].
  - apply perm_nil.
  - cbn [gather]. destruct (nth_error l i); [now apply perm_skip | exact IH].
  - cbn [gather].
    destruct (nth_error l i), (nth_error l j);
      try apply Permutation_refl. apply perm_swap.
  - now apply perm_trans with (gather idx2 l).
Qed.

Lemma NoDup_map_injective_on (f : nat -> nat) (l : list nat) :
  (forall x y, In x l -> In y l -> f x = f y -> x = y) ->
  NoDup l -> NoDup (map f l).
Proof.
  intros Hinj Hnd. induction Hnd as [|x l Hx Hnd IH]; cbn [map].
  - apply NoDup_nil.
  - apply NoDup_cons.
    + intros Hin. apply in_map_iff in Hin. destruct Hin as (y & Hy & Hyl).
      apply Hx. rewrite (Hinj x y); [exact Hyl | now left | now right |].
      now symmetry.
    + apply IH. intros a b Ha Hb. apply Hinj; now right.
Qed.

Lemma swap_indices_Permutation (d : nat) :
  Permutation (map (swap03 d) (seq 0 (d * d * d * d))) (seq 0 (d * d * d * d)).
Proof.
  apply NoDup_Permutation.
  - apply NoDup_map_injective_on; [|apply seq_NoDup].
    intros x y Hx Hy Hxy. apply in_seq in Hx, Hy.
    rewrite <- (swap03_involutive d x), <- (swap03_involutive d y) by lia.
    now rewrite Hxy.
  - apply seq_NoDup.
  - intros x. split.
    + intros Hx. apply in_map_iff in Hx. destruct Hx as (i & <- & Hi).
      apply in_seq in Hi. apply in_seq.
      pose proof (swap03_lt d i). lia.
    + intros Hx. apply in_seq in Hx. apply in_map_iff.
      exists (swap03 d x). split; [apply swap03_involutive; lia|].
      apply in_seq. pose proof (swap03_lt d x). lia.
Qed.

Lemma swap_buf_Permutation (d : nat) (l : list T) :
  length l = d * d * d * d -> Permutation l (swap_buf d l).
Proof.
  intros Hl. unfold swap_buf.
  rewrite <- (gather_seq_all l) at 1. rewrite Hl.
  apply gather_Permutation. apply Permutation_sym, swap_indices_Permutation.
Qed.

End TransformMore.

(** X1: On data of shape [(n, n)] the Super/Choi transform returns exactly
    when [n] is a perfect square, and raises [ValueError] (from [reshape])
    otherwise. *)
Theorem transform_needs_square_dimension {T} (E : Externals T) (q : Qobj T)
        (n : nat) :
  shape (data q) = [n; n] ->
  ((exists d, n = d * d) /\ exists r, _super_tofrom_choi q = Ok r) \/
  ((forall d, n <> d * d) /\ is_raise (_super_tofrom_choi q) ValueError).
Proof.
  intros Hs.
  destruct (Nat.eq_dec (Nat.sqrt n * Nat.sqrt n) n) as [Heq|Hne].
  - left. split; [exists (Nat.sqrt n); now rewrite Heq|].
    rewrite <- Heq in Hs.
    rewrite (super_tofrom_choi_value q (Nat.sqrt n) Hs).
    eexists. reflexivity.
  - right.
    assert (Hlt : Nat.sqrt n * Nat.sqrt n < n).
    { pose proof (Nat.sqrt_spec n (Nat.le_0_l n)) as [Hlo _]. lia. }
    split.
    + intros d Hd. apply Hne. subst n. now rewrite Nat.sqrt_square.
    + unfold _super_tofrom_choi. rewrite Hs. cbn [hd].
      unfold reshape at 1. rewrite Hs. cbn [size_of fold_right].
      replace (Nat.sqrt n * (Nat.sqrt n * (Nat.sqrt n * (Nat.sqrt n * 1)))
               =? n * (n * 1)) with false.
      * cbn [bind]. eexists. reflexivity.
      * symmetry. apply Nat.eqb_neq.
        assert (Nat.sqrt n * Nat.sqrt n * (Nat.sqrt n * Nat.sqrt n) < n * n)
          by (apply Nat.mul_lt_mono; exact Hlt).
        lia.
Qed.

Lemma transform_needs_square_dimension_witness :
  ((exists d, 4 = d * d) /\
   exists r, _super_tofrom_choi (E := Reference.EZ) Reference.S_super = Ok r) \/
  ((forall d, 4 <> d * d) /\
   is_raise (_super_tofrom_choi (E := Reference.EZ) Reference.S_super)
            ValueError).
Proof.
  apply (transform_needs_square_dimension Reference.EZ Reference.S_super 4).
  reflexivity.
Defined.

(** X2: The Super/Choi transform moves the entries without losing or
    duplicating any: on [d*d] by [d*d] data the entries of the result are
    a permutation of the entries of the argument, in a matrix of the same
    shape and with the same dims. *)
Theorem transform_permutes_entries {T} (E : Externals T) (q : Qobj T)
        (d : nat) :
  square_data d q ->
  exists r, _super_tofrom_choi q = Ok r /\
            Permutation (buf (data q)) (buf (data r)) /\
            shape (data r) = shape (data q) /\
            dims r = dims q.
Proof.
  intros [Hs Hl]. rewrite (super_tofrom_choi_value q d Hs).
  eexists. split; [reflexivity|].
  rewrite Qobj_init_data, Qobj_init_dims. cbn [buf shape].
  split; [now apply swap_buf_Permutation|]. now split.
Qed.

Lemma transform_permutes_entries_witness :
  exists r, _super_tofrom_choi (E := Reference.EZ) Reference.S_super = Ok r /\
            Permutation (buf (data Reference.S_super)) (buf (data r)) /\
            shape (data r) = shape (data Reference.S_super) /\
            dims r = dims Reference.S_super.
Proof.
  apply (transform_permutes_entries Reference.EZ Reference.S_super 2).
  split; reflexivity.
Defined.

(** X3: Entry formula of the Super/Choi transform: with rows indexed by
    [(a, b)] and columns by [(c, e)], the entry [((a,b),(c,e))] of the
    result is the entry [((e,b),(c,a))] of the argument. *)
Theorem transform_entry {T} (E : Externals T) (q : Qobj T)
        (d a b c e : nat) :
  square_data d q ->
  a < d -> b < d -> c < d -> e < d ->
  exists r, _super_tofrom_choi q = Ok r /\
            nth_error (buf (data r)) ((a * d + b) * (d * d) + (c * d + e)) =
            nth_error (buf (data q)) ((e * d + b) * (d * d) + (c * d + a)).
Proof.
  intros [Hs Hl] Ha Hb Hc He. rewrite (super_tofrom_choi_value q d Hs).
  eexists. split; [reflexivity|].
  rewrite Qobj_init_data. cbn [buf].
  replace ((a * d + b) * (d * d) + (c * d + e))
    with (a * (d * d * d) + b * (d * d) + c * d + e) by lia.
  rewrite swap_buf_nth_error;
    [| exact Hl | now apply digits4_bound].
  f_equal. unfold swap03.
  destruct (digits4 d a b c e Ha Hb Hc He) as (M0 & M1 & M2 & M3).
  cbv zeta in M0, M1, M2, M3. rewrite M0, M1, M2, M3. lia.
Qed.

Lemma transform_entry_witness :
  exists r, _super_tofrom_choi (E := Reference.EZ) Reference.S_super = Ok r /\
            nth_error (buf (data r)) ((0 * 2 + 0) * (2 * 2) + (1 * 2 + 1)) =
            nth_error (buf (data Reference.S_super))
                      ((1 * 2 + 0) * (2 * 2) + (1 * 2 + 0)).
Proof.
  apply (transform_entry Reference.EZ Reference.S_super 2 0 0 1 1).
  - split; reflexivity.
  - lia.
  - lia.
  - lia.
  - lia.
Defined.

(** ** Dispatch on operators and Kraus extraction *)

Section KrausFacts.
Context {T : Type} {E : Externals T} {G : Eigen T}.

(** One level of [to_kraus] on a Choi-tagged super-operator. *)
Lemma to_kraus_rec_of_choi (n : nat) (q : Qobj T) :
  type q = "super" -> superrep q = Some "choi" ->
  to_kraus_rec (S n) q =
  fmap (fun ks => PyList (map (@PyQobj T) ks)) (choi_to_kraus q).
Proof.
  intros Ht Hr. rewrite to_kraus_rec_S, Ht.
  cbn [String.eqb Ascii.eqb Bool.eqb].
  rewrite (superrep_is_other q _ "super" Hr) by discriminate.
  now rewrite (superrep_is_Some q _ Hr).
Qed.

Lemma mapM_Forall2 {A B} (f : A -> result B) (l : list A) :
  (forall x, In x l -> exists y, f x = Ok y) ->
  exists ys, mapM f l = Ok ys /\ Forall2 (fun x y => f x = Ok y) l ys.
Proof.
  induction l as [|x l IH]; intros Hall.
  - exists []. split; [reflexivity | constructor].
  - destruct (Hall x (or_introl eq_refl)) as [y Hy].
    destruct IH as (ys & Hys & HF).
    { intros z Hz. apply Hall. now right. }
    exists (y :: ys). split.
    + cbn [mapM]. rewrite Hy. cbn [bind]. rewrite Hys. reflexivity.
    + now constructor.
Qed.

Lemma Forall2_nth_error_l {A B} (P : A -> B -> Prop) (l : list A)
      (ys : list B) :
  Forall2 P l ys ->
  forall j x, nth_error l j = Some x ->
              exists y, nth_error ys j = Some y /\ P x y.
Proof.
  induction 1 as [|a b l ys Hab _ IH]; intros j x Hj.
  - now destruct j.
  - destruct j as [|j]; cbn [nth_error] in *.
    + injection Hj as <-. now exists b.
    + now apply IH.
Qed.

Lemma firstn_skipn_nth_error {A} (r : list A) :
  forall k x, nth_error r k = Some x -> firstn 1 (skipn k r) = [x].
Proof.
  induction r as [|a r IH]; intros k x Hk.
  - now destruct k.
  - destruct k as [|k]; cbn [nth_error skipn] in *.
    + injection Hk as <-. reflexivity.
    + now apply IH.
Qed.

Lemma column_of_rows {A} (rows : list (list A)) (k : nat) :
  Forall (fun r => k < length r) rows ->
  Forall2 (fun row x => nth_error row k = Some x) rows
          (flat_map (fun r => firstn 1 (skipn k r)) rows).
Proof.
  induction 1 as [|r rows Hr _ IH]; cbn [flat_map]; [constructor|].
  destruct (nth_error r k) as [x|] eqn:Hx.
  - rewrite (firstn_skipn_nth_error r k x Hx). cbn [app]. now constructor.
  - apply nth_error_None in Hx. lia.
Qed.

Lemma shortest_row_bound {A} (m : nat) (r0 : list A) (rest : list (list A)) :
  m <= length r0 ->
  Forall (fun r => m <= length r) rest ->
  m <= fold_right (fun r n => Nat.min (length r) n) (length r0) rest.
Proof.
  intros H0 Hrest.
  induction Hrest as [|r rest Hr _ IH]; cbn [fold_right]; [exact H0|].
  now apply Nat.min_glb.
Qed.

Lemma zip_star_nth_error (rows : list (list T)) (m j : nat) :
  rows <> [] ->
  Forall (fun r => m <= length r) rows ->
  j < m ->
  exists col, nth_error (zip_star rows) j = Some col /\
              Forall2 (fun row x => nth_error row j = Some x) rows col.
Proof.
  intros Hne Hall Hj. destruct rows as [|r0 rest]; [congruence|].
  assert (Hm : m <= fold_right (fun r n => Nat.min (length r) n)
                               (length r0) rest).
  { inversion Hall; subst. now apply shortest_row_bound. }
  unfold zip_star. eexists. split.
  - rewrite nth_error_map, nth_error_seq.
    destruct (Nat.ltb_spec j (fold_right (fun r n => Nat.min (length r) n)
                                         (length r0) rest)); [|lia].
    cbn [option_map Nat.add]. reflexivity.
  - apply column_of_rows. eapply Forall_impl; [|exact Hall].
    cbn beta. intros r Hr. lia.
Qed.

End KrausFacts.

(** X4: [to_kraus] extracts the Kraus operators from the Choi form: for every
    super-operator [X] (tag ['super'] or ['choi'], classified as a
    super-operator by its dims), [to_kraus(X)] is [choi_to_kraus] applied
    to [to_choi(X)], and so equals [to_kraus(to_choi(X))]. *)
Theorem to_kraus_through_choi {T} (E : Externals T) (G : Eigen T)
        (X : Qobj T) :
  type X = "super" ->
  superrep X = Some "super" \/ superrep X = Some "choi" ->
  classify (dims X) (shape (data X)) = "super" ->
  to_kraus X =
  (c <- to_choi X ;;
   fmap (fun ks => PyList (map (@PyQobj T) ks)) (choi_to_kraus c)) /\
  to_kraus X = (c <- to_choi X ;; to_kraus c).
Proof.
  intros Ht [Hr|Hr] Hc.
  - assert (Hk : to_kraus X = (c <- to_choi X ;; to_kraus_rec 999 c)).
    { unfold to_kraus. change recursion_limit with (S 999).
      rewrite to_kraus_rec_S, Ht. cbn [String.eqb Ascii.eqb Bool.eqb].
      now rewrite (superrep_is_Some X _ Hr). }
    rewrite Hk, (to_choi_of_super X Ht Hr).
    destruct (super_to_choi X) as [Y|] eqn:HY; cbn [bind]; [|now split].
    destruct (super_to_choi_result X Y HY) as (HYr & HYt & _).
    rewrite Hc in HYt.
    change 999 with (S 998).
    rewrite (to_kraus_rec_of_choi 998 Y HYt HYr). split; [reflexivity|].
    unfold to_kraus. change recursion_limit with (S 999).
    now rewrite (to_kraus_rec_of_choi 999 Y HYt HYr).
  - rewrite (to_choi_of_choi X Ht Hr). cbn [bind].
    unfold to_kraus. change recursion_limit with (S 999).
    now rewrite (to_kraus_rec_of_choi 999 X Ht Hr).
Qed.

Lemma to_kraus_through_choi_witness :
  to_kraus (E := Reference.EZ) (G := ReferenceKraus.GZ) Reference.S_super =
  (c <- to_choi (E := Reference.EZ) Reference.S_super ;;
   fmap (fun ks => PyList (map (@PyQobj Z) ks))
        (choi_to_kraus (E := Reference.EZ) (G := ReferenceKraus.GZ) c)) /\
  to_kraus (E := Reference.EZ) (G := ReferenceKraus.GZ) Reference.S_super =
  (c <- to_choi (E := Reference.EZ) Reference.S_super ;;
   to_kraus (E := Reference.EZ) (G := ReferenceKraus.GZ) c).
Proof.
  apply (to_kraus_through_choi Reference.EZ ReferenceKraus.GZ
           Reference.S_super).
  - reflexivity.
  - left. reflexivity.
  - reflexivity.
Defined.

(** X5: A plain operator [U] is promoted to [spre(U) * spost(U.dag())]: when
    that product is a super-operator tagged ['super'], [to_choi(U)] is
    [to_choi(to_super(U))], while [to_kraus(U)] is the one-element list
    [[U]], without any decomposition. *)
Theorem operator_promotion {T} (E : Externals T) (G : Eigen T) (U : Qobj T) :
  type U = "oper" ->
  type (qmul (spre U) (spost (dag U))) = "super" ->
  superrep (qmul (spre U) (spost (dag U))) = Some "super" ->
  to_super U = Ok (PyQobj (qmul (spre U) (spost (dag U)))) /\
  (p <- to_super U ;; call to_choi p) = to_choi U /\
  to_kraus U = Ok (PyList [PyQobj U]).
Proof.
  intros HU HP HPr.
  assert (Hs : to_super U = Ok (PyQobj (qmul (spre U) (spost (dag U)))))
    by (unfold to_super; now rewrite HU).
  split; [exact Hs|]. split.
  - rewrite Hs. cbn [bind call].
    rewrite (to_choi_of_super _ HP HPr).
    unfold to_choi. now rewrite HU.
  - unfold to_kraus. change recursion_limit with (S 999).
    rewrite to_kraus_rec_S. now rewrite HU.
Qed.

Lemma operator_promotion_witness :
  to_super (E := Reference.EZ) Reference.sigmax =
  Ok (PyQobj (qmul (Externals := Reference.EZ)
                   (spre (Externals := Reference.EZ) Reference.sigmax)
                   (spost (Externals := Reference.EZ)
                          (dag (Externals := Reference.EZ) Reference.sigmax)))) /\
  (p <- to_super (E := Reference.EZ) Reference.sigmax ;;
   call (to_choi (E := Reference.EZ)) p) =
  to_choi (E := Reference.EZ) Reference.sigmax /\
  to_kraus (E := Reference.EZ) (G := ReferenceKraus.GZ) Reference.sigmax =
  Ok (PyList [PyQobj Reference.sigmax]).
Proof.
  apply (operator_promotion Reference.EZ ReferenceKraus.GZ Reference.sigmax).
  - reflexivity.
  - reflexivity.
  - reflexivity.
Defined.

(** X6: [choi_to_kraus] returns one operator per eigenvalue, none filtered
    out: when [eig] gives [vals] and an eigenvector matrix with at least
    [len(vals)] rows and columns, the [j]-th operator is built from
    [sqrt(vals[j]) * vec2mat(column j)]. *)
Theorem choi_to_kraus_one_per_eigenvalue {T} (E : Externals T) (G : Eigen T)
        (q : Qobj T) (vals : list T) (vecs : list (list T)) :
  eig (data q) = (vals, vecs) ->
  length vals <= length vecs ->
  Forall (fun row => length vals <= length row) vecs ->
  exists ks,
    choi_to_kraus q = Ok ks /\
    length ks = length vals /\
    forall j v, nth_error vals j = Some v ->
      exists col,
        Forall2 (fun row x => nth_error row j = Some x) vecs col /\
        nth_error ks j =
        Some (Qobj_init (scale (csqrt v) (vec2mat col)) None None None).
Proof.
  intros He Hlen Hrows. unfold choi_to_kraus. rewrite He.
  set (f := fun j : nat =>
              match nth_error vals j, nth_error (zip_star vecs) j with
              | Some v, Some c => Ok (scale (csqrt v) (vec2mat c))
              | _, _ => Raise IndexError "list index out of range"
              end).
  assert (Hcol : forall j, j < length vals ->
            exists col, nth_error (zip_star vecs) j = Some col /\
                        Forall2 (fun row x => nth_error row j = Some x)
                                vecs col).
  { intros j Hj. apply (zip_star_nth_error vecs (length vals) j); auto.
    intros ->. cbn [length] in Hlen. lia. }
  destruct (mapM_Forall2 f (seq 0 (length vals))) as (mats & Hm & HF).
  { intros j Hj. apply in_seq in Hj.
    destruct (nth_error vals j) as [v|] eqn:Hv.
    - destruct (Hcol j) as (col & Hc & _); [lia|].
      unfold f. rewrite Hv, Hc. eexists. reflexivity.
    - apply nth_error_None in Hv. lia. }
  rewrite Hm. cbn [bind]. eexists. split; [reflexivity|].
  split.
  - rewrite length_map, <- (Forall2_length HF). apply length_seq.
  - intros j v Hv.
    assert (Hj : j < length vals) by (apply nth_error_Some; congruence).
    destruct (Hcol j Hj) as (col & Hc & Hcol2).
    exists col. split; [exact Hcol2|].
    assert (Hseq : nth_error (seq 0 (length vals)) j = Some j).
    { rewrite nth_error_seq.
      destruct (Nat.ltb_spec j (length vals)); [reflexivity | lia]. }
    destruct (Forall2_nth_error_l _ _ _ HF j j Hseq) as (m & Hmj & Hfj).
    rewrite nth_error_map, Hmj. cbn [option_map].
    unfold f in Hfj. rewrite Hv, Hc in Hfj. now injection Hfj as <-.
Qed.

Lemma choi_to_kraus_one_per_eigenvalue_witness :
  exists ks,
    choi_to_kraus (E := Reference.EZ) (G := ReferenceKraus.GZ)
                  ReferenceKraus.S_diag = Ok ks /\
    length ks = 4 /\
    forall j v, nth_error [4; 9; 1; 0]%Z j = Some v ->
      exists col,
        Forall2 (fun row x => nth_error row j = Some x)
                [[1; 0; 0; 0]; [0; 1; 0; 0]; [0; 0; 1; 0]; [0; 0; 0; 1]]%Z
                col /\
        nth_error ks j =
        Some (Qobj_init (Externals := Reference.EZ)
                (scale (Eigen := ReferenceKraus.GZ)
                       (csqrt (Eigen := ReferenceKraus.GZ) v)
                       (vec2mat (Eigen := ReferenceKraus.GZ) col))
                None None None).
Proof.
  apply (choi_to_kraus_one_per_eigenvalue Reference.EZ ReferenceKraus.GZ
           ReferenceKraus.S_diag [4; 9; 1; 0]%Z
           [[1; 0; 0; 0]; [0; 1; 0; 0]; [0; 0; 1; 0]; [0; 0; 0; 1]]%Z).
  - reflexivity.
  - cbn [length]. lia.
  - repeat constructor.
Defined.

(** ** More on [tensor] *)

Section TensorMore.
Context {T : Type} {E : Externals T}.

Lemma representation_check_single (q : Qobj T) :
  representation_check [q] = true.
Proof.
  unfold representation_check. cbn [forallb].
  destruct (issuper q); cbn [negb orb]; [|reflexivity].
  rewrite andb_true_r. now apply superrep_eqb_eq.
Qed.

Lemma tensor_not_single (a b : pyval T) (rest : list (pyval T)) :
  tensor (a :: b :: rest) = tensor_qlist (a :: b :: rest).
Proof. now destruct a. Qed.

End TensorMore.

(** X7: A single quantum object is returned as it is, but a one-element list
    or array is not: [tensor([q])] builds a new object with the data and
    dims of [q] whose hermiticity flag is true if the property [isherm]
    reads true on [q] and unknown otherwise, so that a flag of [q] that
    is false is lost and one that is unknown is decided by the getter.
    On an empty list or array [tensor] raises [IndexError]. *)
Theorem tensor_sequence_argument {T} (E : Externals T) (q : Qobj T) :
  tensor [PyQobj q] = Ok q /\
  (exists raw,
      tensor [PyList [PyQobj q]] = Ok (tidied raw) /\
      tensor [PyArray [PyQobj q]] = Ok (tidied raw) /\
      data raw = data q /\ dims raw = dims q /\
      _isherm raw = (if isherm q then Some true else None) /\
      (_isherm q = Some true -> _isherm raw = Some true) /\
      (_isherm q = Some false -> _isherm raw = None)) /\
  is_raise (tensor (T := T) [PyList []]) IndexError /\
  is_raise (tensor (T := T) [PyArray []]) IndexError.
Proof.
  split; [reflexivity|]. split.
  - destruct (tensor_built_object q [] (representation_check_single q))
      as (raw & Hr & Hd & Hdims & Hh).
    assert (Hflag : _isherm raw = if isherm q then Some true else None).
    { rewrite Hh. unfold all_hermitian. cbn [forallb].
      now rewrite andb_true_r. }
    exists raw. cbn [tensor]. cbn [map] in Hr. rewrite Hr.
    split; [reflexivity|]. split; [reflexivity|]. split; [exact Hd|].
    split; [|split; [exact Hflag|split]].
    + rewrite Hdims. cbn [map concat fst snd]. rewrite !app_nil_r.
      now destruct (dims q).
    + intros Hq. now rewrite Hflag, (isherm_cached q true Hq).
    + intros Hq. now rewrite Hflag, (isherm_cached q false Hq).
  - split; eexists; reflexivity.
Qed.

(** X8: [tensor] refuses any operand that is not a quantum object with
    [TypeError], before it looks at the operands themselves: in a call
    with two or more arguments, and in a list or an array given as the
    only argument. *)
Theorem tensor_rejects_non_Qobj {T} (E : Externals T) (l : list (pyval T)) :
  forallb (@is_Qobj T) l = false ->
  tensor [PyList l] =
  Raise TypeError "One of inputs is not a quantum object" /\
  tensor [PyArray l] =
  Raise TypeError "One of inputs is not a quantum object" /\
  (2 <= length l ->
   tensor l = Raise TypeError "One of inputs is not a quantum object").
Proof.
  intros Hl.
  assert (Hq : tensor_qlist l =
               Raise TypeError "One of inputs is not a quantum object")
    by (unfold tensor_qlist; now rewrite Hl).
  split; [exact Hq|]. split; [exact Hq|].
  intros Hlen. destruct l as [|a [|b rest]]; cbn [length] in Hlen; try lia.
  now rewrite tensor_not_single.
Qed.

Lemma tensor_rejects_non_Qobj_witness :
  tensor (E := Reference.EZ) [PyList [PyQobj Reference.sigmax; PyNone]] =
  Raise TypeError "One of inputs is not a quantum object" /\
  tensor (E := Reference.EZ) [PyArray [PyQobj Reference.sigmax; PyNone]] =
  Raise TypeError "One of inputs is not a quantum object" /\
  (2 <= length [PyQobj Reference.sigmax; @PyNone Z] ->
   tensor (E := Reference.EZ) [PyQobj Reference.sigmax; PyNone] =
   Raise TypeError "One of inputs is not a quantum object").
Proof.
  apply (tensor_rejects_non_Qobj Reference.EZ
           [PyQobj Reference.sigmax; PyNone]).
  reflexivity.
Defined.

Lemma tensor_sequence_argument_witness :
  _isherm Reference.sigmaz = None /\
  exists raw,
    tensor (E := Reference.EZ) [PyList [PyQobj Reference.sigmaz]] =
    Ok (tidied (E := Reference.EZ) raw) /\
    _isherm raw = Some true.
Proof.
  split; [reflexivity|].
  destruct (tensor_sequence_argument Reference.EZ Reference.sigmaz)
    as (_ & (raw & Hl & _ & _ & _ & Hf & _) & _).
  exists raw. split; [exact Hl | exact Hf].
Defined.



(** ** More on [super_tensor] *)

Section SuperTensorMore.
Context {T : Type} {E : Externals T}.

Lemma forallb_kind (kind : string) (qs : list (Qobj T)) (q : Qobj T) :
  forallb (fun x => String.eqb (type x) kind) qs = true ->
  In q qs -> type q = kind.
Proof.
  intros Hall Hin. rewrite forallb_forall in Hall.
  apply String.eqb_eq. now apply Hall.
Qed.

Lemma forallb_kind_false (kind : string) (qs : list (Qobj T)) (q : Qobj T) :
  In q qs -> type q <> kind ->
  forallb (fun x => String.eqb (type x) kind) qs = false.
Proof.
  intros Hin Hne. apply not_true_is_false. intros Hall.
  apply Hne. now apply (forallb_kind kind qs q).
Qed.

(** One level of [super_tensor] on quantum objects, by kinds. *)
Lemma super_tensor_rec_kinds (n : nat) (q0 : Qobj T) (rest : list (Qobj T)) :
  super_tensor_rec (S n) (map (@PyQobj T) (q0 :: rest)) =
  let qs := q0 :: rest in
  if forallb (@issuper T) qs then
    if negb (forallb (fun q => superrep_is q "super") qs)
    then Raise TypeError
           "super_tensor on type='super' is only implemented for superrep='super'."
    else
      out <- shuffled_product (map (@PyQobj T) qs) ;;
      Ok (set_superrep out (superrep q0))
  else if forallb (@isoperket T) qs then shuffled_product (map (@PyQobj T) qs)
  else if forallb (@isoperbra T) qs then
    r <- super_tensor_rec n (map (@PyQobj T) (map dag qs)) ;; Ok (dag r)
  else Raise TypeError
         "All arguments must be the same type, either super, operator-ket or operator-bra.".
Proof.
  cbn [map]. rewrite super_tensor_rec_S. cbv zeta.
  change (PyQobj q0 :: map (@PyQobj T) rest)
    with (map (@PyQobj T) (q0 :: rest)).
  rewrite !all_gen_getattr, qobjs_map. cbn [bind].
  destruct (forallb (@issuper T) (q0 :: rest)); [reflexivity|].
  destruct (forallb (@isoperket T) (q0 :: rest)); [reflexivity|].
  destruct (forallb (@isoperbra T) (q0 :: rest)); [|reflexivity].
  now rewrite map_map.
Qed.


(** The first argument decides where the operands are read. *)
Lemma super_tensor_rec_first_argument (n : nat) (q0 : Qobj T)
      (rest l others : list (pyval T)) :
  super_tensor_rec (S n) (PyList (PyQobj q0 :: rest) :: others) =
  super_tensor_rec (S n) (PyQobj q0 :: rest) /\
  super_tensor_rec (S n) (PyArray l :: others) =
  Raise AttributeError "issuper" /\
  super_tensor_rec (S n) (PyNone :: others) =
  Raise AttributeError "issuper" /\
  super_tensor_rec (S n) (PyList [] :: others) =
  Raise IndexError "index out of range".
Proof. repeat split; reflexivity. Qed.

End SuperTensorMore.

(** X10: [super_tensor] raises [TypeError] on quantum objects of different
    kinds, and on any quantum object that is neither a super-operator,
    nor an operator-ket, nor an operator-bra (a plain operator, a ket, a
    bra). *)
Theorem super_tensor_kind_error {T} (E : Externals T) (q0 : Qobj T)
        (rest : list (Qobj T)) :
  (exists p q, In p (q0 :: rest) /\ In q (q0 :: rest) /\ type p <> type q) \/
  (exists q, In q (q0 :: rest) /\ type q <> "super" /\
             type q <> "operator-ket" /\ type q <> "operator-bra") ->
  super_tensor (map (@PyQobj T) (q0 :: rest)) =
  Raise TypeError
    "All arguments must be the same type, either super, operator-ket or operator-bra.".
Proof.
  intros H.
  assert (Hk : forall kind,
             kind = "super" \/ kind = "operator-ket" \/ kind = "operator-bra" ->
             forallb (fun x => String.eqb (type x) kind) (q0 :: rest) = false).
  { intros kind Hkind. destruct H as [(p & q & Hp & Hq & Hne)|(q & Hq & H1 & H2 & H3)].
    - apply not_true_is_false. intros Hall. apply Hne.
      now rewrite (forallb_kind kind _ p Hall Hp), (forallb_kind kind _ q Hall Hq).
    - apply (forallb_kind_false kind _ q Hq).
      destruct Hkind as [->|[->| ->]]; assumption. }
  unfold super_tensor. change recursion_limit with (S 999).
  rewrite super_tensor_rec_kinds. cbv zeta.
  unfold issuper, isoperket, isoperbra.
  rewrite (Hk "super"), (Hk "operator-ket"), (Hk "operator-bra") by tauto.
  reflexivity.
Qed.

Lemma super_tensor_kind_error_witness :
  super_tensor (E := Reference.EZ)
               (map (@PyQobj Z) [Reference.S_super; Reference.sigmax]) =
  Raise TypeError
    "All arguments must be the same type, either super, operator-ket or operator-bra.".
Proof.
  apply (super_tensor_kind_error Reference.EZ Reference.S_super
           [Reference.sigmax]).
  left. exists Reference.S_super, Reference.sigmax.
  split; [now left|]. split; [right; now left|]. discriminate.
Defined.



(** X12: [super_tensor] takes its operands from a list given as first
    argument and ignores every argument after it; an array or [None] in
    first position raises [AttributeError] (where [tensor] accepts an
    array), and an empty list raises [IndexError]. *)
Theorem super_tensor_sequence_argument {T} (E : Externals T)
        (q0 : Qobj T) (rest : list (Qobj T)) (l others : list (pyval T)) :
  super_tensor (PyList (map (@PyQobj T) (q0 :: rest)) :: others) =
  super_tensor (map (@PyQobj T) (q0 :: rest)) /\
  super_tensor (PyArray l :: others) = Raise AttributeError "issuper" /\
  super_tensor (PyNone :: others) = Raise AttributeError "issuper" /\
  tensor [PyArray l] = tensor [PyList l] /\
  is_raise (super_tensor (PyList [] :: others)) IndexError.
Proof.
  unfold super_tensor. change recursion_limit with (S 999).
  destruct (super_tensor_rec_first_argument 999 q0
              (map (@PyQobj T) rest) l others) as (H1 & H2 & H3 & H4).
  split; [exact H1|]. split; [exact H2|]. split; [exact H3|].
  split; [reflexivity|]. eexists. exact H4.
Qed.

(** X13: On operator-bras [super_tensor] is the adjoint of [super_tensor] on
    the adjoints, when [dag] turns the operator-bras into
    operator-kets. *)
Theorem super_tensor_of_operator_bras {T} (E : Externals T) (q0 : Qobj T)
        (rest : list (Qobj T)) :
  forallb (@isoperbra T) (q0 :: rest) = true ->
  forallb (@isoperket T) (map dag (q0 :: rest)) = true ->
  super_tensor (map (@PyQobj T) (q0 :: rest)) =
  (r <- super_tensor (map (@PyQobj T) (map dag (q0 :: rest))) ;; Ok (dag r)).
Proof.
  intros Hb Hk.
  assert (Hns : forallb (@issuper T) (q0 :: rest) = false).
  { apply (forallb_kind_false "super" _ q0); [now left|].
    rewrite (forallb_kind "operator-bra" _ q0 Hb); [discriminate | now left]. }
  assert (Hnk : forallb (@isoperket T) (q0 :: rest) = false).
  { apply (forallb_kind_false "operator-ket" _ q0); [now left|].
    rewrite (forallb_kind "operator-bra" _ q0 Hb); [discriminate | now left]. }
  change (map dag (q0 :: rest)) with (dag q0 :: map dag rest) in *.
  assert (Hds : forallb (@issuper T) (dag q0 :: map dag rest) = false).
  { apply (forallb_kind_false "super" _ (dag q0)); [now left|].
    rewrite (forallb_kind "operator-ket" _ (dag q0) Hk);
      [discriminate | now left]. }
  assert (Hone : forall n,
             super_tensor_rec (S n) (map (@PyQobj T) (dag q0 :: map dag rest)) =
             shuffled_product (map (@PyQobj T) (dag q0 :: map dag rest))).
  { intros n. rewrite super_tensor_rec_kinds. cbv zeta.
    now rewrite Hds, Hk. }
  unfold super_tensor. change recursion_limit with (S 999).
  rewrite super_tensor_rec_kinds. cbv zeta. rewrite Hns, Hnk, Hb.
  change (map dag (q0 :: rest)) with (dag q0 :: map dag rest).
  change 999 with (S 998). now rewrite !Hone.
Qed.

Lemma super_tensor_of_operator_bras_witness :
  super_tensor (E := Reference.EZ)
    (map (@PyQobj Z) [ReferenceKraus.bra_sigmax; ReferenceKraus.bra_sigmax]) =
  (r <- super_tensor (E := Reference.EZ)
          (map (@PyQobj Z)
               (map (dag (Externals := Reference.EZ))
                    [ReferenceKraus.bra_sigmax; ReferenceKraus.bra_sigmax])) ;;
   Ok (dag (Externals := Reference.EZ) r)).
Proof.
  apply (super_tensor_of_operator_bras Reference.EZ ReferenceKraus.bra_sigmax
           [ReferenceKraus.bra_sigmax]).
  - reflexivity.
  - reflexivity.
Defined.

(** ** More on [composite] *)

Section CompositeMore.
Context {T : Type} {E : Externals T}.

(** One level of [composite] on quantum objects. *)
Lemma composite_rec_on_Qobjs (n : nat) (qs : list (Qobj T)) :
  composite_rec (S n) (map (@PyQobj T) qs) =
  if forallb _isoperlike qs then
    if existsb (@issuper T) qs then
      promoted <- mapM to_super qs ;; super_tensor promoted
    else tensor (map (@PyQobj T) qs)
  else if forallb _isketlike qs then
    if existsb (@isoperket T) qs then
      super_tensor
        (map (fun arg => PyQobj (if isoperket arg then arg
                                 else operator_to_vector (ket2dm arg)))
             qs)
    else tensor (map (@PyQobj T) qs)
  else if forallb _isbralike qs then
    r <- composite_rec n (map (@PyQobj T) (map dag qs)) ;; Ok (dag r)
  else Raise TypeError
         ("Unsupported Qobj types [" ++
          String.concat ", " (map (@type T) qs) ++ "].")%string.
Proof.
  rewrite composite_rec_S, forallb_is_Qobj, qobjs_map. cbn [negb]. cbv zeta.
  now rewrite map_map.
Qed.

Lemma kind_tests (q : Qobj T) (kind : string) :
  type q = kind ->
  isoper q = String.eqb kind "oper" /\
  issuper q = String.eqb kind "super" /\
  isket q = String.eqb kind "ket" /\
  isbra q = String.eqb kind "bra" /\
  isoperket q = String.eqb kind "operator-ket" /\
  isoperbra q = String.eqb kind "operator-bra".
Proof.
  intros <-. unfold isoper, issuper, isket, isbra, isoperket, isoperbra.
  now repeat split.
Qed.

(** The three families exclude one another. *)
Lemma families_exclusive (q : Qobj T) :
  (_isoperlike q = true -> _isketlike q = false /\ _isbralike q = false) /\
  (_isketlike q = true -> _isoperlike q = false /\ _isbralike q = false) /\
  (_isbralike q = true -> _isoperlike q = false /\ _isketlike q = false).
Proof.
  unfold _isoperlike, _isketlike, _isbralike,
    isoper, issuper, isket, isbra, isoperket, isoperbra.
  split; [|split]; intros Hfam; apply orb_true_iff in Hfam;
    destruct Hfam as [Hk|Hk]; apply String.eqb_eq in Hk; rewrite Hk;
    split; reflexivity.
Qed.

Lemma forallb_false_member (f : Qobj T -> bool) (qs : list (Qobj T))
      (q : Qobj T) :
  In q qs -> f q = false -> forallb f qs = false.
Proof.
  intros Hin Hf. apply not_true_is_false. intros Hall.
  rewrite forallb_forall in Hall. rewrite (Hall q Hin) in Hf. discriminate.
Qed.

End CompositeMore.

(** X14: [composite] refuses any argument that is not a quantum object with
    [TypeError]; in particular, unlike [tensor], it does not take its
    operands from a list. *)
Theorem composite_rejects_non_Qobj {T} (E : Externals T)
        (args : list (pyval T)) :
  forallb (@is_Qobj T) args = false ->
  composite args = Raise TypeError "All arguments must be Qobjs.".
Proof.
  intros H. unfold composite. change recursion_limit with (S 999).
  rewrite composite_rec_S. now rewrite H.
Qed.

Lemma composite_rejects_non_Qobj_witness :
  composite (E := Reference.EZ)
            [PyList [PyQobj Reference.sigmax; PyQobj Reference.shift3]] =
  Raise TypeError "All arguments must be Qobjs.".
Proof.
  apply (composite_rejects_non_Qobj Reference.EZ
           [PyList [PyQobj Reference.sigmax; PyQobj Reference.shift3]]).
  reflexivity.
Defined.

(** X15: On plain operators only, and on plain kets only, [composite] is
    [tensor]; with no operand at all it fails as [tensor()] does. *)
Theorem composite_plain_is_tensor {T} (E : Externals T)
        (qs : list (Qobj T)) :
  forallb (@isoper T) qs = true \/ forallb (@isket T) qs = true ->
  composite (map (@PyQobj T) qs) = tensor (map (@PyQobj T) qs).
Proof.
  intros H. unfold composite. change recursion_limit with (S 999).
  rewrite composite_rec_on_Qobjs.
  destruct qs as [|q0 rest]; [reflexivity|].
  destruct H as [H|H]; rewrite forallb_forall in H.
  - assert (Ho : forallb _isoperlike (q0 :: rest) = true).
    { apply forallb_forall. intros q Hq. unfold _isoperlike.
      now rewrite (H q Hq). }
    assert (Hs : existsb (@issuper T) (q0 :: rest) = false).
    { apply not_true_is_false. intros Hex.
      apply existsb_exists in Hex as (q & Hq & Hsup).
      pose proof (H q Hq) as Hop. unfold isoper in Hop. unfold issuper in Hsup.
      apply String.eqb_eq in Hop. rewrite Hop in Hsup. discriminate. }
    now rewrite Ho, Hs.
  - assert (Hk : forallb _isketlike (q0 :: rest) = true).
    { apply forallb_forall. intros q Hq. unfold _isketlike.
      now rewrite (H q Hq). }
    assert (Ho : forallb _isoperlike (q0 :: rest) = false).
    { apply (forallb_false_member _ _ q0); [now left|].
      destruct (families_exclusive q0) as (_ & Fk & _). apply Fk.
      unfold _isketlike. rewrite (H q0); [reflexivity | now left]. }
    assert (Hv : existsb (@isoperket T) (q0 :: rest) = false).
    { apply not_true_is_false. intros Hex.
      apply existsb_exists in Hex as (q & Hq & Hok).
      pose proof (H q Hq) as Hket. unfold isket in Hket.
      unfold isoperket in Hok.
      apply String.eqb_eq in Hket. rewrite Hket in Hok. discriminate. }
    now rewrite Ho, Hk, Hv.
Qed.

Lemma composite_plain_is_tensor_witness :
  composite (E := Reference.EZ)
            (map (@PyQobj Z) [Reference.sigmax; Reference.shift3]) =
  tensor (E := Reference.EZ)
         (map (@PyQobj Z) [Reference.sigmax; Reference.shift3]).
Proof.
  apply (composite_plain_is_tensor Reference.EZ
           [Reference.sigmax; Reference.shift3]).
  left. reflexivity.
Defined.

(** X16: [composite] raises [TypeError] as soon as two operands belong to
    different families (operator-like, ket-like, bra-like); the message
    lists the kinds of all operands. *)
Theorem composite_mixed_families {T} (E : Externals T) (qs : list (Qobj T))
        (p q : Qobj T) :
  In p qs -> In q qs ->
  (_isoperlike p = true /\ _isoperlike q = false) \/
  (_isketlike p = true /\ _isketlike q = false) \/
  (_isbralike p = true /\ _isbralike q = false) ->
  composite (map (@PyQobj T) qs) =
  Raise TypeError
    ("Unsupported Qobj types [" ++ String.concat ", " (map (@type T) qs) ++
     "].")%string.
Proof.
  intros Hp Hq H. unfold composite. change recursion_limit with (S 999).
  rewrite composite_rec_on_Qobjs.
  destruct (families_exclusive p) as (Fo & Fk & Fb).
  assert (Ho : forallb _isoperlike qs = false).
  { destruct H as [[_ H]|[[H _]|[H _]]].
    - now apply (forallb_false_member _ _ q).
    - apply (forallb_false_member _ _ p Hp). now apply Fk.
    - apply (forallb_false_member _ _ p Hp). now apply Fb. }
  assert (Hk : forallb _isketlike qs = false).
  { destruct H as [[H _]|[[_ H]|[H _]]].
    - apply (forallb_false_member _ _ p Hp). now apply Fo.
    - now apply (forallb_false_member _ _ q).
    - apply (forallb_false_member _ _ p Hp). now apply Fb. }
  assert (Hb : forallb _isbralike qs = false).
  { destruct H as [[H _]|[[H _]|[_ H]]].
    - apply (forallb_false_member _ _ p Hp). now apply Fo.
    - apply (forallb_false_member _ _ p Hp). now apply Fk.
    - now apply (forallb_false_member _ _ q). }
  now rewrite Ho, Hk, Hb.
Qed.

Lemma composite_mixed_families_witness :
  composite (E := Reference.EZ)
            (map (@PyQobj Z) [Reference.sigmax; Reference.ket0]) =
  Raise TypeError "Unsupported Qobj types [oper, ket].".
Proof.
  apply (composite_mixed_families Reference.EZ
           [Reference.sigmax; Reference.ket0] Reference.sigmax Reference.ket0).
  - now left.
  - right. now left.
  - left. split; reflexivity.
Defined.

(** X17: With ket-like operands of which one at least is an operator-ket,
    [composite] keeps the operator-kets, replaces every plain ket by
    [operator_to_vector(ket2dm(ket))] and calls [super_tensor]. *)
Theorem composite_promotes_kets {T} (E : Externals T) (qs : list (Qobj T)) :
  forallb _isketlike qs = true ->
  existsb (@isoperket T) qs = true ->
  composite (map (@PyQobj T) qs) =
  super_tensor
    (map (fun q => PyQobj (if isoperket q then q
                           else operator_to_vector (ket2dm q))) qs).
Proof.
  intros Hk Hv. unfold composite. change recursion_limit with (S 999).
  rewrite composite_rec_on_Qobjs.
  apply existsb_exists in Hv as (v & Hin & Hv).
  assert (Ho : forallb _isoperlike qs = false).
  { apply (forallb_false_member _ _ v Hin).
    destruct (families_exclusive v) as (_ & Fk & _). apply Fk.
    unfold _isketlike. rewrite Hv. apply orb_true_r. }
  assert (Hv' : existsb (@isoperket T) qs = true)
    by (apply existsb_exists; now exists v).
  now rewrite Ho, Hk, Hv'.
Qed.

Lemma composite_promotes_kets_witness :
  composite (E := Reference.EZ)
            (map (@PyQobj Z) [Reference.ket0; ReferenceKraus.vec_sigmax]) =
  super_tensor (E := Reference.EZ)
    (map (fun q => PyQobj (if isoperket q then q
                           else operator_to_vector (Externals := Reference.EZ)
                                  (ket2dm (Externals := Reference.EZ) q)))
         [Reference.ket0; ReferenceKraus.vec_sigmax]).
Proof.
  apply (composite_promotes_kets Reference.EZ
           [Reference.ket0; ReferenceKraus.vec_sigmax]).
  - reflexivity.
  - reflexivity.
Defined.

(** X18: On bra-like operands [composite] is the adjoint of [composite] on the
    adjoints, when [dag] turns them into ket-like operands. *)
Theorem composite_of_bras {T} (E : Externals T) (q0 : Qobj T)
        (rest : list (Qobj T)) :
  forallb _isbralike (q0 :: rest) = true ->
  forallb _isketlike (map dag (q0 :: rest)) = true ->
  composite (map (@PyQobj T) (q0 :: rest)) =
  (r <- composite (map (@PyQobj T) (map dag (q0 :: rest))) ;; Ok (dag r)).
Proof.
  intros Hb Hk.
  assert (Hb0 : _isbralike q0 = true).
  { cbn [forallb] in Hb. now apply andb_true_iff in Hb as [Hb _]. }
  assert (Hk0 : _isketlike (dag q0) = true).
  { cbn [map forallb] in Hk. now apply andb_true_iff in Hk as [Hk _]. }
  destruct (families_exclusive q0) as (_ & _ & Fb).
  destruct (families_exclusive (dag q0)) as (_ & Fk & _).
  assert (Ho : forallb _isoperlike (q0 :: rest) = false).
  { apply (forallb_false_member _ _ q0); [now left|]. now apply Fb. }
  assert (Hnk : forallb _isketlike (q0 :: rest) = false).
  { apply (forallb_false_member _ _ q0); [now left|]. now apply Fb. }
  assert (Hdo : forallb _isoperlike (map dag (q0 :: rest)) = false).
  { apply (forallb_false_member _ _ (dag q0)); [now left|]. now apply Fk. }
  assert (Hone : forall n m,
             composite_rec (S n) (map (@PyQobj T) (map dag (q0 :: rest))) =
             composite_rec (S m) (map (@PyQobj T) (map dag (q0 :: rest)))).
  { intros n m. rewrite !composite_rec_on_Qobjs. now rewrite Hdo, Hk. }
  unfold composite. change recursion_limit with (S 999).
  rewrite (composite_rec_on_Qobjs 999 (q0 :: rest)), Ho, Hnk, Hb.
  change 999 with (S 998). now rewrite (Hone 998 (S 998)).
Qed.

Lemma composite_of_bras_witness :
  composite (E := Reference.EZ)
            (map (@PyQobj Z) [ReferenceKraus.bra0; ReferenceKraus.bra_sigmax]) =
  (r <- composite (E := Reference.EZ)
          (map (@PyQobj Z)
               (map (dag (Externals := Reference.EZ))
                    [ReferenceKraus.bra0; ReferenceKraus.bra_sigmax])) ;;
   Ok (dag (Externals := Reference.EZ) r)).
Proof.
  apply (composite_of_bras Reference.EZ ReferenceKraus.bra0
           [ReferenceKraus.bra_sigmax]).
  - reflexivity.
  - reflexivity.
Defined.

(** ** From Kraus operators to the Choi and Super forms *)

Import KrausReps.

Section KrausToChoiFacts.
Context {T : Type} {E : Externals T} {Sc : Reference.Scalar T}.

Lemma mapM_map_ok {A B} (f : A -> result B) (g : A -> B) (l : list A) :
  (forall x, In x l -> f x = Ok (g x)) -> mapM f l = Ok (map g l).
Proof.
  induction l as [|x l IH]; intros H; [reflexivity|].
  cbn [mapM map]. rewrite (H x (or_introl eq_refl)). cbn [bind].
  rewrite IH by (intros y Hy; apply H; now right). reflexivity.
Qed.

Lemma table_ext (n m : nat) (f g : nat -> nat -> T) :
  (forall i j, i < n -> j < m -> f i j = g i j) -> table n m f = table n m g.
Proof.
  intros H. unfold table. apply map_ext_in. intros i Hi. apply in_seq in Hi.
  apply map_ext_in. intros j Hj. apply in_seq in Hj. apply H; lia.
Qed.

Lemma table_length (n m : nat) (f : nat -> nat -> T) :
  length (table n m f) = n.
Proof. unfold table. now rewrite length_map, length_seq. Qed.

Lemma table_nth_error (n m : nat) (f : nat -> nat -> T) (i : nat) :
  i < n -> nth_error (table n m f) i = Some (map (f i) (seq 0 m)).
Proof.
  intros Hi. unfold table. rewrite nth_error_map, nth_error_seq.
  destruct (Nat.ltb_spec i n); [reflexivity | lia].
Qed.

Lemma table_hd_length (n m : nat) (f : nat -> nat -> T) :
  0 < n -> length (hd [] (table n m f)) = m.
Proof.
  intros Hn. destruct n; [lia|]. unfold table. cbn [seq map hd].
  now rewrite length_map, length_seq.
Qed.

Lemma row_nth_error {X} (m : nat) (g : nat -> X) (j : nat) :
  j < m -> nth_error (map g (seq 0 m)) j = Some (g j).
Proof.
  intros Hj. rewrite nth_error_map, nth_error_seq.
  destruct (Nat.ltb_spec j m); [reflexivity | lia].
Qed.

Lemma block_entry_table (n m : nat) (f : nat -> nat -> T) (i j : nat) :
  i < n -> j < m -> block_entry (table n m f) i j = f i j.
Proof.
  intros Hi Hj. unfold block_entry.
  rewrite table_length, table_hd_length by lia.
  assert (Hi' : (if n =? 1 then 0 else i) = i).
  { destruct (Nat.eqb_spec n 1); lia. }
  assert (Hj' : (if m =? 1 then 0 else j) = j).
  { destruct (Nat.eqb_spec m 1); lia. }
  rewrite Hi', Hj'.
  rewrite (nth_error_nth _ _ _ (table_nth_error n m f i Hi)).
  apply nth_error_nth. now apply row_nth_error.
Qed.

Lemma madd_table (n : nat) (f g : nat -> nat -> T) :
  0 < n ->
  madd (table n n f) (table n n g) =
  Ok (table n n (fun i j => Reference.sadd (f i j) (g i j))).
Proof.
  intros Hn. unfold madd.
  rewrite !table_length, !table_hd_length by exact Hn.
  unfold broadcast_dim. rewrite Nat.eqb_refl. f_equal.
  apply map_ext_in. intros i Hi. apply in_seq in Hi.
  apply map_ext_in. intros j Hj. apply in_seq in Hj.
  now rewrite !block_entry_table by lia.
Qed.

Lemma sum_blocks_tables (n : nat) (F : ndarray T -> nat -> nat -> T)
      (ms : list (ndarray T)) :
  0 < n ->
  forall acc : nat -> nat -> T,
    fold_left (fun a b => x <- a ;; madd x b)
              (map (fun op => table n n (F op)) ms) (Ok (table n n acc)) =
    Ok (table n n (fun i j =>
                     fold_left (fun s op => Reference.sadd s (F op i j))
                               ms (acc i j))).
Proof.
  intros Hn. induction ms as [|m ms IH]; intros acc; [reflexivity|].
  cbn [map fold_left bind]. rewrite madd_table by exact Hn.
  now rewrite IH.
Qed.


Lemma shape_square (op : ndarray T) (n : nat) :
  shape op = [n; n] -> Reference.nrows op = n /\ Reference.ncols op = n.
Proof. unfold Reference.nrows, Reference.ncols. now intros ->. Qed.

Lemma term_value (op : ndarray T) (n c r : nat) :
  shape op = [n; n] -> c < n -> r < n ->
  (col <- column op c ;; row <- row_H op r ;; Ok (outer col row)) =
  Ok (table n n (fun i j =>
                   Reference.smul (Reference.entry op i c)
                                  (Reference.sconj (Reference.entry op j r)))).
Proof.
  intros Hs Hc Hr. destruct (shape_square op n Hs) as [Hn Hm].
  unfold column, row_H. rewrite Hn, Hm.
  destruct (Nat.ltb_spec c n); [|lia]. destruct (Nat.ltb_spec r n); [|lia].
  cbn [bind]. unfold outer, table. f_equal. rewrite map_map.
  apply map_ext. intros i. now rewrite map_map.
Qed.

Lemma zero_plus_table (n : nat) (f : nat -> nat -> T) :
  map (map (Reference.sadd Reference.s0)) (table n n f) =
  table n n (fun i j => Reference.sadd Reference.s0 (f i j)).
Proof.
  unfold table. rewrite map_map. apply map_ext. intros i. now rewrite map_map.
Qed.

Lemma block_value (m0 : ndarray T) (ms : list (ndarray T)) (n c r : nat) :
  Forall (fun op => shape op = [n; n]) (m0 :: ms) -> c < n -> r < n ->
  (let term op := col <- column op c ;; row <- row_H op r ;;
                  Ok (outer col row) in
   b0 <- term m0 ;; rest <- mapM term ms ;; sum_blocks b0 rest) =
  Ok (table n n (fun i j =>
        fold_left (fun s op =>
                     Reference.sadd s
                       (Reference.smul (Reference.entry op i c)
                          (Reference.sconj (Reference.entry op j r))))
                  (m0 :: ms) Reference.s0)).
Proof.
  intros Hall Hc Hr. cbv zeta.
  inversion Hall as [|? ? H0 Hms]; subst.
  rewrite (term_value m0 n c r H0 Hc Hr). cbn [bind].
  rewrite (mapM_map_ok _
             (fun op => table n n (fun i j =>
                Reference.smul (Reference.entry op i c)
                               (Reference.sconj (Reference.entry op j r))))).
  - cbn [bind]. unfold sum_blocks. rewrite zero_plus_table.
    rewrite (sum_blocks_tables n
               (fun op i j => Reference.smul (Reference.entry op i c)
                                (Reference.sconj (Reference.entry op j r))))
      by lia.
    reflexivity.
  - intros op Hop. rewrite Forall_forall in Hms.
    apply term_value; auto.
Qed.


Lemma flat_map_seq_length {X} (f : nat -> list X) (m n : nat) :
  forall s,
    (forall x, s <= x < s + n -> length (f x) = m) ->
    length (flat_map f (seq s n)) = n * m.
Proof.
  induction n as [|n IH]; intros s H; [reflexivity|].
  cbn [seq flat_map]. rewrite length_app, IH, H by (intros; try apply H; lia).
  lia.
Qed.

Lemma flat_map_seq_nth_error {X} (f : nat -> list X) (m n : nat) :
  forall s a b,
    (forall x, s <= x < s + n -> length (f x) = m) ->
    a < n -> b < m ->
    nth_error (flat_map f (seq s n)) (a * m + b) = nth_error (f (s + a)) b.
Proof.
  induction n as [|n IH]; intros s a b H Ha Hb; [lia|].
  cbn [seq flat_map]. destruct a as [|a].
  - cbn [Nat.mul Nat.add]. rewrite Nat.add_0_r.
    apply nth_error_app1. rewrite H; lia.
  - rewrite nth_error_app2 by (rewrite H; lia).
    rewrite H by lia.
    replace (S a * m + b - m) with (a * m + b) by lia.
    rewrite IH by (intros; try apply H; lia).
    f_equal. f_equal. lia.
Qed.

Lemma flat_map_of_map {A B C} (f : B -> list C) (g : A -> B) (l : list A) :
  flat_map f (map g l) = flat_map (fun x => f (g x)) l.
Proof.
  induction l as [|x l IH]; [reflexivity|]. cbn [map flat_map]. now rewrite IH.
Qed.

Lemma hstack_of_map {X A} (G : A -> list (list X)) (l : list A) (len : nat) :
  l <> [] ->
  (forall a, In a l -> length (G a) = len) ->
  hstack (map G l) =
  Ok (map (fun k => flat_map (fun a => nth k (G a) []) l) (seq 0 len)).
Proof.
  intros Hne Hlen. destruct l as [|a0 l]; [congruence|].
  unfold hstack. cbn [map]. rewrite (Hlen a0) by now left.
  f_equal. apply map_ext. intros k.
  change (G a0 :: map G l) with (map G (a0 :: l)).
  apply flat_map_of_map.
Qed.


Lemma flat_map_ext_in {A B} (f g : A -> list B) (l : list A) :
  (forall x, In x l -> f x = g x) -> flat_map f l = flat_map g l.
Proof.
  induction l as [|x l IH]; intros H; [reflexivity|].
  cbn [flat_map]. rewrite (H x) by now left.
  rewrite IH by (intros y Hy; apply H; now right). reflexivity.
Qed.

Lemma index_split (n k : nat) :
  0 < n -> k < n * n -> k / n < n /\ k mod n < n /\ k = k / n * n + k mod n.
Proof.
  intros Hn Hk. repeat split.
  - apply Nat.Div0.div_lt_upper_bound. lia.
  - apply Nat.mod_upper_bound. lia.
  - pose proof (Nat.div_mod_eq k n). lia.
Qed.

(** The rows of the Choi matrix. *)
Lemma kraus_to_choi_value (k0 : Qobj T) (rest : list (Qobj T)) (n : nat) :
  0 < n ->
  Forall (fun k => shape (data k) = [n; n]) (k0 :: rest) ->
  kraus_to_choi (k0 :: rest) =
  Ok (Qobj_init
        (array (map (fun k =>
                       flat_map (fun r =>
                                   map (fun j =>
                                          kraus_sum (map (@data T) (k0 :: rest))
                                                    (k mod n) (k / n) j r)
                                       (seq 0 n))
                                (seq 0 n))
                    (seq 0 (n * n))))
        (Some (choi_dims (dims k0))) (Some "super") (Some "choi")).
Proof.
  intros Hn Hall.
  assert (Hmats : Forall (fun op => shape op = [n; n])
                         (data k0 :: map (@data T) rest)).
  { change (data k0 :: map (@data T) rest) with (map (@data T) (k0 :: rest)).
    apply Forall_map. exact Hall. }
  assert (Hrows : Reference.nrows (data k0) = n).
  { inversion Hall; subst. now apply shape_square. }
  unfold kraus_to_choi. cbn [map]. rewrite Hrows.
  set (B := fun c r => table n n (fun i j =>
              kraus_sum (data k0 :: map (@data T) rest) i c j r)).
  rewrite (mapM_map_ok _ (fun c => map (fun r => B c r) (seq 0 n))).
  2:{ intros c Hc. apply in_seq in Hc.
      apply mapM_map_ok. intros r Hr. apply in_seq in Hr.
      apply (block_value (data k0) (map (@data T) rest) n c r Hmats); lia. }
  cbn [bind].
  assert (Hseq : seq 0 n <> []) by (destruct n; [lia | discriminate]).
  rewrite (hstack_of_map (fun c => map (fun r => B c r) (seq 0 n))
                         (seq 0 n) n Hseq)
    by (intros; now rewrite length_map, length_seq).
  cbn [bind].
  assert (Hnth : forall c r, r < n ->
             nth r (map (fun r' => B c r') (seq 0 n)) [] = B c r).
  { intros c r Hr. apply nth_error_nth. now apply row_nth_error. }
  assert (Hlen : forall r, In r (seq 0 n) ->
             length (flat_map (fun c => nth r (map (fun r' => B c r')
                                                   (seq 0 n)) [])
                              (seq 0 n)) = n * n).
  { intros r Hr. apply in_seq in Hr.
    apply flat_map_seq_length. intros c _. rewrite Hnth by lia.
    apply table_length. }
  rewrite (hstack_of_map _ (seq 0 n) (n * n) Hseq Hlen).
  cbn [bind]. do 3 f_equal.
  apply map_ext_in. intros k Hk. apply in_seq in Hk.
  destruct (index_split n k Hn) as (Hc & Hi & Hki); [lia|].
  apply flat_map_ext_in. intros r Hr. apply in_seq in Hr.
  apply nth_error_nth.
  rewrite Hki at 1.
  rewrite (flat_map_seq_nth_error _ n n 0 (k / n) (k mod n)); try lia.
  - cbn [Nat.add]. rewrite Hnth by lia. unfold B.
    now rewrite table_nth_error.
  - intros c _. rewrite Hnth by lia. apply table_length.
Qed.

End KrausToChoiFacts.

Section ChoiMatrixFacts.
Context {T : Type} {Sc : Reference.Scalar T}.

(** The array built from the rows of the Choi matrix. *)
Lemma choi_array (mats : list (ndarray T)) (n : nat) :
  0 < n ->
  let rows := map (fun k =>
                     flat_map (fun r =>
                                 map (fun j => kraus_sum mats (k mod n) (k / n)
                                                         j r)
                                     (seq 0 n))
                              (seq 0 n))
                  (seq 0 (n * n)) in
  shape (array rows) = [n * n; n * n] /\
  length (buf (array rows)) = n * n * n * n /\
  forall c i r j, c < n -> i < n -> r < n -> j < n ->
    nth_error (buf (array rows)) ((c * n + i) * (n * n) + (r * n + j)) =
    Some (kraus_sum mats i c j r).
Proof.
  intros Hn rows.
  assert (Hrow : forall k,
             length (flat_map (fun r =>
                                 map (fun j => kraus_sum mats (k mod n) (k / n)
                                                         j r)
                                     (seq 0 n))
                              (seq 0 n)) = n * n).
  { intros k. apply flat_map_seq_length. intros r _.
    now rewrite length_map, length_seq. }
  unfold array. cbn [shape buf].
  assert (Hbuf : concat rows =
                 flat_map (fun k =>
                     flat_map (fun r =>
                                 map (fun j => kraus_sum mats (k mod n) (k / n)
                                                         j r)
                                     (seq 0 n))
                              (seq 0 n))
                   (seq 0 (n * n))).
  { unfold rows. now rewrite flat_map_concat_map. }
  split; [|split].
  - unfold rows. rewrite length_map, length_seq. f_equal. f_equal.
    assert (Hhd : forall (R : nat -> list T) N,
               0 < N -> hd [] (map R (seq 0 N)) = R 0)
      by (intros R [|N] HN; [lia | reflexivity]).
    rewrite Hhd by nia. apply Hrow.
  - rewrite Hbuf.
    rewrite (flat_map_seq_length _ (n * n) (n * n) 0) by (intros; apply Hrow).
    lia.
  - intros c i r j Hc Hi Hr Hj. rewrite Hbuf.
    rewrite (flat_map_seq_nth_error _ (n * n) (n * n) 0 (c * n + i)
                                    (r * n + j));
      [| intros; apply Hrow | nia | nia].
    cbn [Nat.add].
    rewrite (flat_map_seq_nth_error _ n n 0 r j);
      [| intros; now rewrite length_map, length_seq | lia | lia].
    cbn [Nat.add]. rewrite row_nth_error by lia.
    rewrite Nat.div_add_l, Nat.div_small, Nat.add_0_r by lia.
    rewrite Nat.add_comm, Nat.Div0.mod_add, Nat.mod_small by lia.
    reflexivity.
Qed.

End ChoiMatrixFacts.

(** X19: [kraus_to_choi] on operators [A_k] that are all [n] by [n]: the
    result has shape [(n*n, n*n)] and the dims [[d, d]] with [d] the dims
    of the first operator, and with rows indexed by [(c, i)] and columns
    by [(r, j)] its entry is the sum over [k] of
    [A_k[i,c] * conj(A_k[j,r])], that is [vec(A_k) vec(A_k)^dagger] under
    column stacking. *)
Theorem kraus_to_choi_entries {T} (E : Externals T) (Sc : Reference.Scalar T)
        (k0 : Qobj T) (rest : list (Qobj T)) (n c i r j : nat) :
  Forall (fun k => shape (data k) = [n; n]) (k0 :: rest) ->
  c < n -> i < n -> r < n -> j < n ->
  exists q,
    kraus_to_choi (k0 :: rest) = Ok q /\
    shape (data q) = [n * n; n * n] /\
    dims q = choi_dims (dims k0) /\
    nth_error (buf (data q)) ((c * n + i) * (n * n) + (r * n + j)) =
    Some (kraus_sum (map (@data T) (k0 :: rest)) i c j r).
Proof.
  intros Hall Hc Hi Hr Hj.
  assert (Hn : 0 < n) by lia.
  rewrite (kraus_to_choi_value k0 rest n Hn Hall).
  eexists. split; [reflexivity|].
  rewrite Qobj_init_data, Qobj_init_dims.
  destruct (choi_array (map (@data T) (k0 :: rest)) n Hn) as (Hs & _ & He).
  split; [exact Hs|]. split; [reflexivity|]. now apply He.
Qed.

Lemma kraus_to_choi_entries_witness :
  exists q,
    kraus_to_choi (E := Reference.EZ) (Sc := Reference.Scalar_Z)
                  [Reference.sigmam; Reference.sigmax] = Ok q /\
    shape (data q) = [2 * 2; 2 * 2] /\
    dims q = choi_dims (dims Reference.sigmam) /\
    nth_error (buf (data q)) ((0 * 2 + 1) * (2 * 2) + (1 * 2 + 0)) =
    Some (kraus_sum (Sc := Reference.Scalar_Z)
                    (map (@data Z) [Reference.sigmam; Reference.sigmax])
                    1 0 0 1).
Proof.
  apply (kraus_to_choi_entries Reference.EZ Reference.Scalar_Z
           Reference.sigmam [Reference.sigmax] 2 0 1 1 0).
  - repeat constructor.
  - lia.
  - lia.
  - lia.
  - lia.
Defined.

(** X20: [kraus_to_super] on operators [A_k] that are all [n] by [n] returns
    an object tagged ['super'] whose entry, with rows indexed by [(a, b)]
    and columns by [(c, e)], is the sum over [k] of
    [A_k[b,e] * conj(A_k[a,c])]: the matrix of [conj(A_k)] Kronecker
    [A_k], summed over the operators. *)
Theorem kraus_to_super_entries {T} (E : Externals T)
        (Sc : Reference.Scalar T) (k0 : Qobj T) (rest : list (Qobj T))
        (n a b c e : nat) :
  Forall (fun k => shape (data k) = [n; n]) (k0 :: rest) ->
  a < n -> b < n -> c < n -> e < n ->
  exists s,
    kraus_to_super (k0 :: rest) = Ok s /\
    superrep s = Some "super" /\
    shape (data s) = [n * n; n * n] /\
    nth_error (buf (data s)) ((a * n + b) * (n * n) + (c * n + e)) =
    Some (kraus_sum (map (@data T) (k0 :: rest)) b e a c).
Proof.
  intros Hall Ha Hb Hc He.
  assert (Hn : 0 < n) by lia.
  unfold kraus_to_super.
  rewrite (kraus_to_choi_value k0 rest n Hn Hall). cbn [bind].
  destruct (choi_array (map (@data T) (k0 :: rest)) n Hn) as (Hs & Hl & Hent).
  cbv zeta in Hs, Hl, Hent.
  unfold choi_to_super.
  match goal with
  | |- context [super_to_choi ?q] =>
      destruct (super_to_choi_data q n) as (y & Hy & Hyd);
        [now rewrite Qobj_init_data|]
  end.
  rewrite Hy. cbn [bind]. eexists. split; [reflexivity|].
  cbn [set_superrep superrep data]. split; [reflexivity|].
  rewrite Hyd, Qobj_init_data. cbn [shape buf]. split; [reflexivity|].
  replace ((a * n + b) * (n * n) + (c * n + e))
    with (a * (n * n * n) + b * (n * n) + c * n + e) by lia.
  rewrite swap_buf_nth_error; [| exact Hl | now apply digits4_bound].
  unfold swap03.
  destruct (digits4 n a b c e Ha Hb Hc He) as (M0 & M1 & M2 & M3).
  cbv zeta in M0, M1, M2, M3. rewrite M0, M1, M2, M3.
  replace (e * (n * n * n) + b * (n * n) + c * n + a)
    with ((e * n + b) * (n * n) + (c * n + a)) by lia.
  now apply Hent.
Qed.

Lemma kraus_to_super_entries_witness :
  exists s,
    kraus_to_super (E := Reference.EZ) (Sc := Reference.Scalar_Z)
                   [Reference.sigmam; Reference.sigmax] = Ok s /\
    superrep s = Some "super" /\
    shape (data s) = [2 * 2; 2 * 2] /\
    nth_error (buf (data s)) ((1 * 2 + 1) * (2 * 2) + (0 * 2 + 0)) =
    Some (kraus_sum (Sc := Reference.Scalar_Z)
                    (map (@data Z) [Reference.sigmam; Reference.sigmax])
                    1 0 1 0).
Proof.
  apply (kraus_to_super_entries Reference.EZ Reference.Scalar_Z
           Reference.sigmam [Reference.sigmax] 2 1 1 0 0).
  - repeat constructor.
  - lia.
  - lia.
  - lia.
  - lia.
Defined.

(** X21: On the empty list [kraus_to_choi] raises [IndexError], from reading
    the first operator, and so does [kraus_to_super]. *)
Theorem kraus_to_choi_empty {T} (E : Externals T) (Sc : Reference.Scalar T) :
  kraus_to_choi (T := T) [] = Raise IndexError "list index out of range" /\
  kraus_to_super (T := T) [] = Raise IndexError "list index out of range".
Proof. split; reflexivity. Qed.

Section HermitianChoi.
Context {T : Type} {Sc : Reference.Scalar T}.

Lemma kraus_sum_conj (mats : list (ndarray T)) (i c j r : nat) :
  Reference.sconj Reference.s0 = Reference.s0 ->
  (forall x y, Reference.sconj (Reference.sadd x y) =
               Reference.sadd (Reference.sconj x) (Reference.sconj y)) ->
  (forall x y, Reference.sconj (Reference.smul x y) =
               Reference.smul (Reference.sconj x) (Reference.sconj y)) ->
  (forall x, Reference.sconj (Reference.sconj x) = x) ->
  (forall x y, Reference.smul x y = Reference.smul y x) ->
  Reference.sconj (kraus_sum mats i c j r) = kraus_sum mats j r i c.
Proof.
  intros H0 Hadd Hmul Hinv Hcomm. unfold kraus_sum.
  rewrite <- H0 at 2. generalize (Reference.s0 (T := T)) as acc.
  induction mats as [|m mats IH]; intros acc; [reflexivity|].
  cbn [fold_left]. rewrite IH. f_equal.
  rewrite Hadd, Hmul, Hinv. f_equal. apply Hcomm.
Qed.

End HermitianChoi.

(** X22: The Choi matrix [kraus_to_choi] builds is Hermitian whenever the
    arithmetic of the entries is that of a commutative ring with an
    involutive conjugation: the entry [((r,j),(c,i))] is the conjugate of
    the entry [((c,i),(r,j))]. *)
Theorem kraus_to_choi_hermitian {T} (E : Externals T)
        (Sc : Reference.Scalar T) (k0 : Qobj T) (rest : list (Qobj T))
        (n c i r j : nat) :
  Reference.sconj Reference.s0 = Reference.s0 ->
  (forall x y, Reference.sconj (Reference.sadd x y) =
               Reference.sadd (Reference.sconj x) (Reference.sconj y)) ->
  (forall x y, Reference.sconj (Reference.smul x y) =
               Reference.smul (Reference.sconj x) (Reference.sconj y)) ->
  (forall x, Reference.sconj (Reference.sconj x) = x) ->
  (forall x y, Reference.smul x y = Reference.smul y x) ->
  Forall (fun k => shape (data k) = [n; n]) (k0 :: rest) ->
  c < n -> i < n -> r < n -> j < n ->
  exists q x,
    kraus_to_choi (k0 :: rest) = Ok q /\
    nth_error (buf (data q)) ((c * n + i) * (n * n) + (r * n + j)) = Some x /\
    nth_error (buf (data q)) ((r * n + j) * (n * n) + (c * n + i)) =
    Some (Reference.sconj x).
Proof.
  intros H0 Hadd Hmul Hinv Hcomm Hall Hc Hi Hr Hj.
  assert (Hn : 0 < n) by lia.
  rewrite (kraus_to_choi_value k0 rest n Hn Hall).
  eexists. eexists. split; [reflexivity|].
  rewrite Qobj_init_data.
  destruct (choi_array (map (@data T) (k0 :: rest)) n Hn) as (_ & _ & He).
  cbv zeta in He.
  split; [now apply He|].
  rewrite He by assumption.
  now rewrite (kraus_sum_conj _ i c j r H0 Hadd Hmul Hinv Hcomm).
Qed.

Lemma kraus_to_choi_hermitian_witness :
  exists q x,
    kraus_to_choi (E := Reference.EZ) (Sc := Reference.Scalar_Z)
                  [Reference.sigmam; Reference.sigmax] = Ok q /\
    nth_error (buf (data q)) ((0 * 2 + 1) * (2 * 2) + (1 * 2 + 0)) = Some x /\
    nth_error (buf (data q)) ((1 * 2 + 0) * (2 * 2) + (0 * 2 + 1)) =
    Some (Reference.sconj (Scalar := Reference.Scalar_Z) x).
Proof.
  apply (kraus_to_choi_hermitian Reference.EZ Reference.Scalar_Z
           Reference.sigmam [Reference.sigmax] 2 0 1 1 0).
  - reflexivity.
  - reflexivity.
  - reflexivity.
  - reflexivity.
  - intros x y. simpl. lia.
  - repeat constructor.
  - lia.
  - lia.
  - lia.
  - lia.
Defined.
